(** * Xorshift64* generator with Von Neumann whitening (rng.py)

    A shallow embedding of the class [XorshiftRNG] of [rng.py]: the
    generator object is a record, every method is a function in a small
    state-and-error monad, and every [while] loop takes a fuel argument
    that bounds its number of iterations. *)

From Stdlib Require Import ZArith List Bool Lia.
Import ListNotations.
Local Open Scope Z_scope.

(** ** Outcomes and the method monad *)

(** A method call either returns a value, or exhausts the fuel of one of
    its [while] loops, or raises the [IndexError] of [list.pop] on an
    empty list. *)
Inductive result (A : Type) : Type :=
| Ok (a : A)
| OutOfFuel
| IndexError.
Arguments Ok {A} a.
Arguments OutOfFuel {A}.
Arguments IndexError {A}.

(** The object: [self.state], [self.bit_buffer], [self.buffer_index]. *)
Record RNG : Type := mkRNG {
  state : Z;
  bit_buffer : list Z;
  buffer_index : Z
}.

Definition M (A : Type) : Type := RNG -> result (A * RNG).

Definition ret {A} (a : A) : M A := fun st => Ok (a, st).

Definition bind {A B} (c : M A) (k : A -> M B) : M B :=
  fun st =>
    match c st with
    | Ok (a, st1) => k a st1
    | OutOfFuel => OutOfFuel
    | IndexError => IndexError
    end.

Declare Scope rng_scope.
Delimit Scope rng_scope with rng.
Notation "x <- c ;; k" := (bind c (fun x => k))
  (at level 61, c at next level, right associativity) : rng_scope.
Notation "c ;;; k" := (bind c (fun _ => k))
  (at level 61, right associativity) : rng_scope.
Local Open Scope rng_scope.

(** [for x in xs: acc = body(x, acc)] with the object threaded through. *)
Fixpoint for_each {A} (xs : list Z) (body : Z -> A -> M A) (acc : A) : M A :=
  match xs with
  | [] => ret acc
  | x :: xs' => acc1 <- body x acc ;; for_each xs' body acc1
  end.

(** Python's [range(start, stop, step)] for a positive [step]. *)
Definition py_range (start stop step : Z) : list Z :=
  map (fun k => start + Z.of_nat k * step)
      (seq 0 (Z.to_nat ((stop - start + step - 1) / step))).

(** Python's [int.bit_length]: the number of bits of the absolute value. *)
Definition bit_length (n : Z) : Z :=
  if n =? 0 then 0 else Z.log2 (Z.abs n) + 1.

(** ** The class XorshiftRNG *)

Definition mask64 : Z := 0xFFFFFFFFFFFFFFFF.
Definition MAGIC : Z := 2685821657736338717.
Definition default_seed : Z := 1234567890.

(** [__init__(self, seed)] *)
Definition __init__ (seed : Z) : RNG :=
  let s := Z.land seed mask64 in
  let s := if s =? 0 then 1 else s in
  {| state := s; bit_buffer := []; buffer_index := 0 |}.

Definition set_state (x : Z) (st : RNG) : RNG :=
  {| state := x; bit_buffer := bit_buffer st; buffer_index := buffer_index st |}.

Definition set_bit_buffer (b : list Z) (st : RNG) : RNG :=
  {| state := state st; bit_buffer := b; buffer_index := buffer_index st |}.

(** [_xorshift64_raw(self)] *)
Definition _xorshift64_raw : M Z := fun st =>
  let x := state st in
  let x := Z.lxor x (Z.land (Z.shiftl x 12) mask64) in
  let x := Z.lxor x (Z.shiftr x 25) in
  let x := Z.lxor x (Z.land (Z.shiftl x 27) mask64) in
  let st1 := set_state x st in
  let result := Z.land (x * MAGIC) mask64 in
  Ok (result, st1).

(** [_extract_bit(self, number, bit_pos)] *)
Definition _extract_bit (number bit_pos : Z) : Z :=
  Z.land (Z.shiftr number bit_pos) 1.

(** [self.bit_buffer.append(b)] *)
Definition append_bit (b : Z) : M unit := fun st =>
  Ok (tt, set_bit_buffer (bit_buffer st ++ [b]) st).

(** The body of the [for i in range(0, 64, 2)] loop of [_fill_buffer]. *)
Definition whiten_pair (raw i : Z) (_ : unit) : M unit :=
  let bit1 := _extract_bit raw i in
  let bit2 := _extract_bit raw (i + 1) in
  if (bit1 =? 0) && (bit2 =? 1) then append_bit 0
  else if (bit1 =? 1) && (bit2 =? 0) then append_bit 1
  else ret tt.

(** The [for] loop of [_fill_buffer] on one raw word. *)
Definition whiten_word (raw : Z) : M unit :=
  for_each (py_range 0 64 2) (whiten_pair raw) tt.

(** [_fill_buffer(self)]: one unit of fuel per test of the loop condition. *)
Fixpoint _fill_buffer (fuel : nat) : M unit :=
  match fuel with
  | O => fun _ => OutOfFuel
  | S fuel' => fun st =>
      if (Z.of_nat (length (bit_buffer st)) <? 32)
      then (raw <- _xorshift64_raw ;;
            whiten_word raw ;;;
            _fill_buffer fuel') st
      else ret tt st
  end.

(** [self.bit_buffer.pop(0)] *)
Definition pop0 : M Z := fun st =>
  match bit_buffer st with
  | [] => IndexError
  | b :: rest => Ok (b, set_bit_buffer rest st)
  end.

(** [generate_raw_bit(self)] *)
Definition generate_raw_bit (fuel : nat) : M Z := fun st =>
  ((if Z.of_nat (length (bit_buffer st)) =? 0
    then _fill_buffer fuel else ret tt) ;;;
   bit <- pop0 ;;
   ret bit) st.

(** [apply_whitening(self, num_bits)] *)
Definition apply_whitening (fuel : nat) (num_bits : Z) : M Z :=
  for_each (py_range 0 num_bits 1)
           (fun i result =>
              bit <- generate_raw_bit fuel ;;
              ret (Z.lor result (Z.shiftl bit i)))
           0.

(** The [while True] loop of [get_random_number]: one unit of [attempts]
    per iteration; [fuel] bounds the refill loops below it. *)
Fixpoint rejection_loop (fuel attempts : nat) (bit_len max_value : Z) : M Z :=
  match attempts with
  | O => fun _ => OutOfFuel
  | S attempts' =>
      num <- apply_whitening fuel bit_len ;;
      if num <? max_value then ret num
      else rejection_loop fuel attempts' bit_len max_value
  end.

(** [get_random_number(self, max_value)] *)
Definition get_random_number (fuel : nat) (max_value : Z) : M Z :=
  if max_value <=? 1 then ret 0
  else
    let bit_len := bit_length max_value in
    rejection_loop fuel fuel bit_len max_value.

(** [get_random_bits(self, n)] *)
Definition get_random_bits (fuel : nat) (n : Z) : M (list Z) :=
  for_each (py_range 0 n 1)
           (fun _ bits =>
              b <- generate_raw_bit fuel ;;
              ret (bits ++ [b]))
           [].

(** ** Driving a generator through its methods *)

Inductive op : Type :=
| OpRawWord                    (* _xorshift64_raw() *)
| OpFillBuffer                 (* _fill_buffer() *)
| OpBit                        (* generate_raw_bit() *)
| OpBits (n : Z)               (* get_random_bits(n) *)
| OpPack (num_bits : Z)        (* apply_whitening(num_bits) *)
| OpBounded (max_value : Z).   (* get_random_number(max_value) *)

(** What a call hands back to its caller. *)
Inductive value : Type :=
| VNone
| VInt (z : Z)
| VList (l : list Z).

Definition run_op (fuel : nat) (o : op) : M value :=
  match o with
  | OpRawWord => w <- _xorshift64_raw ;; ret (VInt w)
  | OpFillBuffer => _fill_buffer fuel ;;; ret VNone
  | OpBit => b <- generate_raw_bit fuel ;; ret (VInt b)
  | OpBits n => bs <- get_random_bits fuel n ;; ret (VList bs)
  | OpPack k => v <- apply_whitening fuel k ;; ret (VInt v)
  | OpBounded m => v <- get_random_number fuel m ;; ret (VInt v)
  end.

(** A script of calls, each with its own fuel; the observable behaviour
    of a generator under the script is the list of returned values. *)
Fixpoint run_ops (script : list (nat * op)) : M (list value) :=
  match script with
  | [] => ret []
  | (fuel, o) :: rest =>
      v <- run_op fuel o ;;
      vs <- run_ops rest ;;
      ret (v :: vs)
  end.

(** The generator objects a program can hold: a freshly constructed one,
    or one on which a method call has returned. *)
Inductive reachable : RNG -> Prop :=
| reach_init (seed : Z) : reachable (__init__ seed)
| reach_call (st st' : RNG) (fuel : nat) (o : op) (v : value) :
    reachable st -> run_op fuel o st = Ok (v, st') -> reachable st'.

(** ** Reference definitions, in the words of the specification *)

Module Spec.

Definition two64 : Z := 2 ^ 64.

(** Section 4.1: the three shift-xor steps. *)
Definition next_state (x : Z) : Z :=
  let x := Z.lxor x ((Z.shiftl x 12) mod two64) in
  let x := Z.lxor x (Z.shiftr x 25) in
  let x := Z.lxor x ((Z.shiftl x 27) mod two64) in
  x.

(** Section 4.1: the multiplicative finishing step. *)
Definition output (x : Z) : Z := (x * 2685821657736338717) mod two64.

(** Section 4.2: the Von Neumann rule on one pair. *)
Definition pair_rule (b1 b2 : bool) : list Z :=
  match b1, b2 with
  | false, true => [0]
  | true, false => [1]
  | false, false | true, true => []
  end.

(** Section 4.2: the pair positions i = 0, 2, 4, ..., 62. *)
Definition pair_positions : list Z :=
  map (fun k => 2 * Z.of_nat k) (seq 0 32).

(** Section 4.2: the bits one word contributes, pairs (w[i], w[i+1])
    taken in increasing order of i. *)
Definition whiten (w : Z) : list Z :=
  flat_map (fun i => pair_rule (Z.testbit w i) (Z.testbit w (i + 1)))
           pair_positions.

(** Section 4.3: the first bit at position 0, the second at 1, ... *)
Fixpoint pack (bits : list Z) : Z :=
  match bits with
  | [] => 0
  | b :: rest => b + 2 * pack rest
  end.

(** An n-digit binary numeral, written most significant digit first. *)
Definition of_binary (digits : list Z) : Z :=
  fold_left (fun acc d => 2 * acc + d) digits 0.

End Spec.

(** The least-significant-first pairs the whitening loop reads from the
    low [n] bits of [raw]. *)
Definition lsb_pairs (raw n : Z) : list (Z * Z) :=
  map (fun i => (_extract_bit raw i, _extract_bit raw (i + 1)))
      (py_range 0 n 2).

(** The refill loop as a relation: [refills st n st'] when the loop,
    started on [st], pulls exactly [n] raw words and stops on [st']. *)
Inductive refills : RNG -> nat -> RNG -> Prop :=
| refills_stop (st : RNG) :
    32 <= Z.of_nat (length (bit_buffer st)) -> refills st O st
| refills_pull (st st1 st' : RNG) (w : Z) (n : nat) :
    Z.of_nat (length (bit_buffer st)) < 32 ->
    _xorshift64_raw st = Ok (w, st1) ->
    refills (set_bit_buffer (bit_buffer st1 ++ Spec.whiten w) st1) n st' ->
    refills st (S n) st'.

(** The attempts of the rejection loop: [attempts fuel w st tr st'] when
    successive calls drawing [w] bits each, started on [st], draw the bit
    lists [tr] in order and leave the generator in [st']. *)
Inductive attempts (fuel : nat) (w : Z) : RNG -> list (list Z) -> RNG -> Prop :=
| attempts_nil (st : RNG) : attempts fuel w st [] st
| attempts_cons (st st1 st' : RNG) (bits : list Z) (tr : list (list Z)) :
    get_random_bits fuel w st = Ok (bits, st1) ->
    attempts fuel w st1 tr st' ->
    attempts fuel w st (bits :: tr) st'.

(** [n] successive calls of [generate_raw_bit], results in call order. *)
Fixpoint draw (fuel : nat) (n : nat) : M (list Z) :=
  match n with
  | O => ret []
  | S n' =>
      b <- generate_raw_bit fuel ;;
      bs <- draw fuel n' ;;
      ret (b :: bs)
  end.

(** The accumulator of [apply_whitening] after the bits [bits] have been
    placed from position [i] on: [result |= (bit << i)] for each. *)
Fixpoint pack_lor (bits : list Z) (i : Z) (result : Z) : Z :=
  match bits with
  | [] => result
  | bit :: rest => pack_lor rest (i + 1) (Z.lor result (Z.shiftl bit i))
  end.

(** ** Invariants *)

(** [len(self.bit_buffer)] *)
Definition buffered (st : RNG) : Z := Z.of_nat (length (bit_buffer st)).

Definition is_bit (b : Z) : Prop := b = 0 \/ b = 1.

Definition word64 (x : Z) : Prop := 0 <= x < 2 ^ 64.

Definition rng_inv (st : RNG) : Prop :=
  word64 (state st) /\ state st <> 0 /\ Forall is_bit (bit_buffer st).

(** ** Quantities used to describe the remaining behaviour *)

(** The inverse of [MAGIC] modulo 2^64. *)
Definition MAGIC_INV : Z := 6415128727920758069.

(** The three shift-xor lines of [_xorshift64_raw], as a function of the
    old state. *)
Definition scramble (x : Z) : Z :=
  let x := Z.lxor x (Z.land (Z.shiftl x 12) mask64) in
  let x := Z.lxor x (Z.shiftr x 25) in
  let x := Z.lxor x (Z.land (Z.shiftl x 27) mask64) in
  x.

(** The complement of a bit value. *)
Definition flip_bit (b : Z) : Z := 1 - b.

(** The value of a 64-bit word rebuilt from the bits that [_extract_bit]
    reads at positions 0 .. n-1. *)
Fixpoint rebuild (number : Z) (n : nat) : Z :=
  match n with
  | O => 0
  | S n' => rebuild number n' + 2 ^ Z.of_nat n' * _extract_bit number (Z.of_nat n')
  end.

(** ** The sampling and counting steps of [analyze_distribution]

    [analyze_distribution(rng, count)] draws [count * 8] bits and then
    [count] numbers below 256 from the generator, and tallies them; the
    definitions below are those draws and the integer tallies. The
    printing and the floating-point averages and percentages of the
    function are not part of this development. *)

(** [sum(1 for b in bits if b == x)] *)
Definition tally (x : Z) (bits : list Z) : Z :=
  Z.of_nat (length (filter (fun b => b =? x) bits)).

(** [[rng.get_random_number(256) for _ in range(count)]] *)
Definition sample_numbers (fuel : nat) (count : Z) : M (list Z) :=
  for_each (py_range 0 count 1)
           (fun _ numbers =>
              v <- get_random_number fuel 256 ;;
              ret (numbers ++ [v]))
           [].

(** The two draws of [analyze_distribution], in its order. Between them
    the function divides by [len(bits)], and after them by
    [len(numbers)]; a zero divisor raises [ZeroDivisionError], which ends
    the function: that outcome is [None]. *)
Definition analysis_draws (fuel : nat) (count : Z)
  : M (option (list Z * list Z)) :=
  bits <- get_random_bits fuel (count * 8) ;;
  if Z.of_nat (length bits) =? 0 then ret None
  else
    numbers <- sample_numbers fuel count ;;
    if Z.of_nat (length numbers) =? 0 then ret None
    else ret (Some (bits, numbers)).

(** The position Python's [lst[idx]] denotes in a list of length [len]:
    negative indices count from the end, anything else out of range is
    an [IndexError] (here [None]). *)
Definition py_index (len idx : Z) : option nat :=
  if (0 <=? idx) && (idx <? len) then Some (Z.to_nat idx)
  else if (idx <? 0) && (- len <=? idx) then Some (Z.to_nat (idx + len))
  else None.

(** [buckets[idx] += 1] *)
Definition bump (buckets : list Z) (idx : Z) : option (list Z) :=
  match py_index (Z.of_nat (length buckets)) idx with
  | Some k =>
      Some (firstn k buckets ++ (nth k buckets 0 + 1) :: skipn (S k) buckets)
  | None => None
  end.

(** The loop [for num in numbers: ...] over the eight buckets. *)
Fixpoint histogram_loop (numbers : list Z) (buckets : list Z)
  : option (list Z) :=
  match numbers with
  | [] => Some buckets
  | num :: rest =>
      let bucket_idx := num / 32 in
      if bucket_idx <? 8 then
        match bump buckets bucket_idx with
        | Some buckets' => histogram_loop rest buckets'
        | None => None
        end
      else histogram_loop rest buckets
  end.

(** [buckets = [0] * 8] followed by the loop. *)
Definition histogram (numbers : list Z) : option (list Z) :=
  histogram_loop numbers (repeat 0 8).

(** [sum(lst)] *)
Definition py_sum (lst : list Z) : Z := fold_right Z.add 0 lst.

(** ** Bit-level facts *)

Section Bits.

Lemma mask64_ones : mask64 = Z.ones 64.
Proof. reflexivity. Qed.

Lemma land_mask64 (a : Z) : Z.land a mask64 = a mod 2 ^ 64.
Proof. rewrite mask64_ones. apply Z.land_ones. lia. Qed.

Lemma land_mask64_word (a : Z) : word64 (Z.land a mask64).
Proof.
  rewrite land_mask64. unfold word64. apply Z.mod_pos_bound. lia.
Qed.

Lemma lxor_word (a b : Z) : word64 a -> word64 b -> word64 (Z.lxor a b).
Proof.
  unfold word64. intros [Ha Ha'] [Hb Hb'].
  assert (Hnn : 0 <= Z.lxor a b) by (apply Z.lxor_nonneg; tauto).
  split; [exact Hnn|].
  destruct (Z.eq_dec (Z.lxor a b) 0) as [E|E]; [rewrite E; lia|].
  apply Z.log2_lt_pow2; [lia|].
  pose proof (Z.log2_lxor a b Ha Hb) as Hl.
  assert (La : Z.log2 a < 64).
  { destruct (Z.eq_dec a 0) as [->|]; [simpl; lia|].
    apply Z.log2_lt_pow2; lia. }
  assert (Lb : Z.log2 b < 64).
  { destruct (Z.eq_dec b 0) as [->|]; [simpl; lia|].
    apply Z.log2_lt_pow2; lia. }
  lia.
Qed.

Lemma shiftr_word (a k : Z) : 0 <= k -> word64 a -> word64 (Z.shiftr a k).
Proof.
  unfold word64. intros Hk [Ha Ha'].
  rewrite Z.shiftr_div_pow2 by exact Hk.
  assert (0 < 2 ^ k) by (apply Z.pow_pos_nonneg; lia).
  split; [apply Z.div_pos; lia|].
  apply Z.le_lt_trans with a; [|exact Ha'].
  apply Z.div_le_upper_bound; nia.
Qed.

(** [x ^= (x << k) & mask] has no non-zero fixed point at zero. *)
Lemma xor_shl_nonzero (x k : Z) :
  0 < k -> x <> 0 -> Z.lxor x (Z.land (Z.shiftl x k) mask64) <> 0.
Proof.
  intros Hk Hx H. apply Hx. apply Z.lxor_eq in H.
  apply Z.bits_inj'. intros n Hn. rewrite Z.bits_0.
  revert n Hn. apply (Zlt_0_ind (fun n => Z.testbit x n = false)).
  intros n IH Hn.
  replace (Z.testbit x n)
    with (Z.testbit (Z.land (Z.shiftl x k) mask64) n)
    by (rewrite <- H; reflexivity).
  rewrite Z.land_spec, Z.shiftl_spec by exact Hn.
  destruct (Z_lt_dec (n - k) 0) as [Hneg|Hpos].
  - rewrite Z.testbit_neg_r by exact Hneg. reflexivity.
  - rewrite IH by lia. reflexivity.
Qed.

(** [x ^= x >> k] keeps the top bit of a positive [x]. *)
Lemma xor_shr_nonzero (x k : Z) :
  0 < k -> 0 < x -> Z.lxor x (Z.shiftr x k) <> 0.
Proof.
  intros Hk Hx H. apply Z.lxor_eq in H.
  rewrite Z.shiftr_div_pow2 in H by lia.
  assert (1 < 2 ^ k) by (apply Z.pow_gt_1; lia).
  pose proof (Z.div_lt x (2 ^ k) Hx ltac:(lia)). lia.
Qed.

Lemma extract_bit_testbit (number bit_pos : Z) :
  0 <= bit_pos ->
  _extract_bit number bit_pos = Z.b2z (Z.testbit number bit_pos).
Proof.
  intros Hp. unfold _extract_bit.
  change 1 with (Z.ones 1). rewrite Z.land_ones by lia.
  change (2 ^ 1) with 2. rewrite <- Z.bit0_mod.
  rewrite Z.shiftr_spec by lia. reflexivity.
Qed.

End Bits.

(** ** The monad and the loops *)

Lemma bind_Ok {A B} (c : M A) (k : A -> M B) (st st' : RNG) (b : B) :
  bind c k st = Ok (b, st') ->
  exists a st1, c st = Ok (a, st1) /\ k a st1 = Ok (b, st').
Proof.
  unfold bind. destruct (c st) as [[a st1]| |]; try discriminate.
  intros H. exists a, st1. split; [reflexivity|exact H].
Qed.

Lemma bind_IndexError {A B} (c : M A) (k : A -> M B) (st : RNG) :
  bind c k st = IndexError ->
  c st = IndexError \/ exists a st1, c st = Ok (a, st1) /\ k a st1 = IndexError.
Proof.
  unfold bind. destruct (c st) as [[a st1]| |]; try discriminate.
  - intros H. right. exists a, st1. split; [reflexivity|exact H].
  - intros _. left. reflexivity.
Qed.

Ltac inv_bind H :=
  let a := fresh "a" in
  let s := fresh "st" in
  let H1 := fresh H in
  apply bind_Ok in H; destruct H as (a & s & H1 & H).

Ltac inv_ret H := unfold ret in H; injection H as ? ?; subst.

Lemma set_bit_buffer_same (st : RNG) : set_bit_buffer (bit_buffer st) st = st.
Proof. destruct st; reflexivity. Qed.

(** A loop keeps whatever every run of its body keeps. *)
Lemma for_each_keeps {A} (I : RNG -> Prop) (body : Z -> A -> M A) :
  (forall x a st a' st', I st -> body x a st = Ok (a', st') -> I st') ->
  forall xs a st a' st',
    I st -> for_each xs body a st = Ok (a', st') -> I st'.
Proof.
  intros Hbody xs. induction xs as [|x xs IH]; intros a st a' st' HI H.
  - simpl in H. inv_ret H. exact HI.
  - simpl in H. inv_bind H. eapply IH; [|exact H]. eapply Hbody; eassumption.
Qed.

Lemma for_each_no_exn {A} (I : RNG -> Prop) (body : Z -> A -> M A) :
  (forall x a st a' st', I st -> body x a st = Ok (a', st') -> I st') ->
  (forall x a st, I st -> body x a st <> IndexError) ->
  forall xs a st, I st -> for_each xs body a st <> IndexError.
Proof.
  intros Hk Hn xs. induction xs as [|x xs IH]; intros a st HI H.
  - discriminate H.
  - simpl in H. apply bind_IndexError in H.
    destruct H as [H|(a1 & st1 & H1 & H)].
    + exact (Hn _ _ _ HI H).
    + exact (IH _ _ (Hk _ _ _ _ _ HI H1) H).
Qed.

Lemma py_range_unit (n : Z) :
  py_range 0 n 1 = map Z.of_nat (seq 0 (Z.to_nat n)).
Proof.
  unfold py_range. rewrite Z.div_1_r.
  replace (n - 0 + 1 - 1) with n by lia.
  apply map_ext. intros k. lia.
Qed.

Lemma py_range_pairs : py_range 0 64 2 = Spec.pair_positions.
Proof. reflexivity. Qed.

(** ** Whitening one word *)

Lemma whiten_pair_rule (raw i : Z) (st : RNG) :
  0 <= i ->
  whiten_pair raw i tt st =
  Ok (tt, set_bit_buffer
            (bit_buffer st ++
             Spec.pair_rule (Z.testbit raw i) (Z.testbit raw (i + 1))) st).
Proof.
  intros Hi. unfold whiten_pair.
  rewrite !extract_bit_testbit by lia.
  destruct (Z.testbit raw i), (Z.testbit raw (i + 1)); simpl;
    unfold ret, append_bit; try reflexivity;
    rewrite app_nil_r, set_bit_buffer_same; reflexivity.
Qed.

Lemma for_each_whiten (raw : Z) (xs : list Z) :
  Forall (fun i => 0 <= i) xs ->
  forall st,
    for_each xs (whiten_pair raw) tt st =
    Ok (tt, set_bit_buffer
              (bit_buffer st ++
               flat_map (fun i => Spec.pair_rule (Z.testbit raw i)
                                                 (Z.testbit raw (i + 1))) xs)
              st).
Proof.
  induction 1 as [|i xs Hi Hxs IH]; intros st.
  - simpl. unfold ret. rewrite app_nil_r, set_bit_buffer_same. reflexivity.
  - simpl. unfold bind. rewrite whiten_pair_rule by exact Hi.
    rewrite IH. simpl. rewrite <- app_assoc. reflexivity.
Qed.

Lemma pair_positions_nonneg : Forall (fun i => 0 <= i) Spec.pair_positions.
Proof.
  unfold Spec.pair_positions. apply Forall_forall. intros i Hi.
  apply in_map_iff in Hi. destruct Hi as (k & <- & _). lia.
Qed.

Lemma whiten_word_eq (raw : Z) (st : RNG) :
  whiten_word raw st =
  Ok (tt, set_bit_buffer (bit_buffer st ++ Spec.whiten raw) st).
Proof.
  unfold whiten_word. rewrite py_range_pairs.
  apply for_each_whiten. exact pair_positions_nonneg.
Qed.

Lemma pair_rule_bits (b1 b2 : bool) : Forall is_bit (Spec.pair_rule b1 b2).
Proof.
  destruct b1, b2; simpl; repeat constructor; unfold is_bit; lia.
Qed.

Lemma whiten_bits (w : Z) : Forall is_bit (Spec.whiten w).
Proof.
  unfold Spec.whiten. apply Forall_flat_map. apply Forall_forall.
  intros i _. apply pair_rule_bits.
Qed.

(** ** The invariant and the methods *)

Lemma init_inv (seed : Z) : rng_inv (__init__ seed).
Proof.
  unfold rng_inv, __init__. simpl.
  pose proof (land_mask64_word seed) as Hw.
  destruct (Z.eqb_spec (Z.land seed mask64) 0) as [E|E].
  - unfold word64. repeat split; try lia. constructor.
  - repeat split; try assumption; try apply Hw. constructor.
Qed.

Lemma xorshift_inv (st st' : RNG) (w : Z) :
  rng_inv st -> _xorshift64_raw st = Ok (w, st') ->
  rng_inv st' /\ bit_buffer st' = bit_buffer st /\ word64 w.
Proof.
  intros (Hw & Hnz & Hb) H. unfold _xorshift64_raw in H.
  injection H as Hres Hst. subst st' w.
  set (x1 := Z.lxor (state st) (Z.land (Z.shiftl (state st) 12) mask64)).
  set (x2 := Z.lxor x1 (Z.shiftr x1 25)).
  set (x3 := Z.lxor x2 (Z.land (Z.shiftl x2 27) mask64)).
  assert (W1 : word64 x1) by (apply lxor_word; [exact Hw|apply land_mask64_word]).
  assert (N1 : x1 <> 0) by (apply xor_shl_nonzero; [lia|exact Hnz]).
  assert (W2 : word64 x2)
    by (apply lxor_word; [exact W1|apply shiftr_word; [lia|exact W1]]).
  assert (N2 : x2 <> 0)
    by (apply xor_shr_nonzero; [lia|unfold word64 in W1; lia]).
  assert (W3 : word64 x3) by (apply lxor_word; [exact W2|apply land_mask64_word]).
  assert (N3 : x3 <> 0) by (apply xor_shl_nonzero; [lia|exact N2]).
  split; [|split].
  - unfold rng_inv. simpl. repeat split; try apply W3; assumption.
  - reflexivity.
  - apply land_mask64_word.
Qed.

Lemma xorshift_total (st : RNG) : exists w st1, _xorshift64_raw st = Ok (w, st1).
Proof. unfold _xorshift64_raw. eexists. eexists. reflexivity. Qed.

Lemma fill_buffer_stop (fuel : nat) (st : RNG) :
  32 <= buffered st -> _fill_buffer (S fuel) st = Ok (tt, st).
Proof.
  intros H. simpl. fold (buffered st).
  destruct (Z.ltb_spec (buffered st) 32); [lia|reflexivity].
Qed.

Lemma fill_buffer_pull (fuel : nat) (st st1 : RNG) (w : Z) :
  buffered st < 32 ->
  _xorshift64_raw st = Ok (w, st1) ->
  _fill_buffer (S fuel) st =
  _fill_buffer fuel (set_bit_buffer (bit_buffer st1 ++ Spec.whiten w) st1).
Proof.
  intros H Hraw. simpl. fold (buffered st).
  destruct (Z.ltb_spec (buffered st) 32); [|lia].
  unfold bind at 1. rewrite Hraw.
  unfold bind at 1. rewrite whiten_word_eq. reflexivity.
Qed.

Lemma fill_buffer_inv (fuel : nat) :
  forall st st' u,
    rng_inv st -> _fill_buffer fuel st = Ok (u, st') ->
    rng_inv st' /\ 32 <= buffered st'.
Proof.
  induction fuel as [|fuel IH]; intros st st' u Hinv H; [discriminate H|].
  destruct (Z_lt_dec (buffered st) 32) as [Hlt|Hge].
  - destruct (xorshift_total st) as (w & st1 & Hraw).
    rewrite (fill_buffer_pull _ _ _ _ Hlt Hraw) in H.
    apply IH in H; [exact H|].
    destruct (xorshift_inv _ _ _ Hinv Hraw) as ((Hw & Hnz & Hb) & Hbuf & _).
    unfold rng_inv. simpl. repeat split; try apply Hw; try assumption.
    apply Forall_app. split; [exact Hb|apply whiten_bits].
  - rewrite fill_buffer_stop in H by lia. injection H as ? ?; subst.
    split; [exact Hinv|lia].
Qed.

Lemma fill_buffer_full (fuel : nat) :
  forall st st' u, _fill_buffer fuel st = Ok (u, st') -> 32 <= buffered st'.
Proof.
  induction fuel as [|fuel IH]; intros st st' u H; [discriminate H|].
  destruct (Z_lt_dec (buffered st) 32) as [Hlt|Hge].
  - destruct (xorshift_total st) as (w & st1 & Hraw).
    rewrite (fill_buffer_pull _ _ _ _ Hlt Hraw) in H. eapply IH; exact H.
  - rewrite fill_buffer_stop in H by lia. injection H as ? ?; subst. lia.
Qed.

Lemma fill_buffer_no_exn (fuel : nat) :
  forall st, _fill_buffer fuel st <> IndexError.
Proof.
  induction fuel as [|fuel IH]; intros st; [discriminate|].
  destruct (Z_lt_dec (buffered st) 32) as [Hlt|Hge].
  - destruct (xorshift_total st) as (w & st1 & Hraw).
    rewrite (fill_buffer_pull _ _ _ _ Hlt Hraw). apply IH.
  - rewrite fill_buffer_stop by lia. discriminate.
Qed.

Lemma pop0_inv (st st' : RNG) (b : Z) :
  rng_inv st -> pop0 st = Ok (b, st') -> rng_inv st' /\ is_bit b.
Proof.
  intros (Hw & Hnz & Hb) H. unfold pop0 in H.
  destruct (bit_buffer st) as [|b0 rest] eqn:E; [discriminate|].
  injection H as <- <-. inversion Hb; subst.
  unfold rng_inv. simpl. auto.
Qed.

Lemma generate_raw_bit_inv (fuel : nat) (st st' : RNG) (b : Z) :
  rng_inv st -> generate_raw_bit fuel st = Ok (b, st') ->
  rng_inv st' /\ is_bit b.
Proof.
  intros Hinv H. unfold generate_raw_bit in H.
  inv_bind H. inv_bind H. inv_ret H.
  eapply pop0_inv; [|exact H1].
  destruct (Z.of_nat (length (bit_buffer st)) =? 0).
  - eapply fill_buffer_inv; eassumption.
  - inv_ret H0. exact Hinv.
Qed.

(** [list.pop(0)] in [generate_raw_bit] never raises: the buffer it pops
    from is non-empty, either as found or as refilled. *)
Lemma generate_raw_bit_no_exn (fuel : nat) (st : RNG) :
  generate_raw_bit fuel st <> IndexError.
Proof.
  unfold generate_raw_bit. intros H.
  apply bind_IndexError in H. destruct H as [H|(u & st1 & H1 & H)].
  - destruct (Z.of_nat (length (bit_buffer st)) =? 0);
      [exact (fill_buffer_no_exn _ _ H)|discriminate H].
  - assert (Hne : 0 < buffered st1).
    { destruct (Z.eqb_spec (Z.of_nat (length (bit_buffer st))) 0) as [E|E].
      - apply fill_buffer_full in H1. lia.
      - inv_ret H1. unfold buffered. lia. }
    unfold bind, pop0, buffered in *.
    destruct (bit_buffer st1); [simpl in Hne; lia|discriminate H].
Qed.

(** ** Drawing and packing bits *)

Lemma draw_inv (fuel : nat) (n : nat) :
  forall st st' bs,
    rng_inv st -> draw fuel n st = Ok (bs, st') ->
    rng_inv st' /\ Forall is_bit bs.
Proof.
  induction n as [|n IH]; intros st st' bs Hinv H; simpl in H.
  - inv_ret H. split; [exact Hinv|constructor].
  - inv_bind H. inv_bind H. inv_ret H.
    destruct (generate_raw_bit_inv _ _ _ _ Hinv H0) as [Hinv1 Hb].
    destruct (IH _ _ _ Hinv1 H1) as [Hinv2 Hbs].
    split; [exact Hinv2|constructor; assumption].
Qed.

Lemma draw_length (fuel : nat) (n : nat) :
  forall st st' bs, draw fuel n st = Ok (bs, st') -> length bs = n.
Proof.
  induction n as [|n IH]; intros st st' bs H; simpl in H.
  - inv_ret H. reflexivity.
  - inv_bind H. inv_bind H. inv_ret H. simpl. f_equal. eapply IH; eassumption.
Qed.

Lemma bits_loop_draw (fuel : nat) (xs : list Z) :
  forall acc st,
    for_each xs (fun _ bits => b <- generate_raw_bit fuel ;; ret (bits ++ [b]))
             acc st
    = (bs <- draw fuel (length xs) ;; ret (acc ++ bs)) st.
Proof.
  induction xs as [|x xs IH]; intros acc st; simpl; unfold bind, ret in *.
  - rewrite app_nil_r. reflexivity.
  - destruct (generate_raw_bit fuel st) as [[b st1]| |]; try reflexivity.
    rewrite IH.
    destruct (draw fuel (length xs) st1) as [[bs st2]| |]; try reflexivity.
    rewrite <- app_assoc. reflexivity.
Qed.

Lemma pack_loop_draw (fuel : nat) (n : nat) :
  forall k acc st,
    for_each (map Z.of_nat (seq k n))
             (fun i result =>
                bit <- generate_raw_bit fuel ;;
                ret (Z.lor result (Z.shiftl bit i)))
             acc st
    = (bs <- draw fuel n ;; ret (pack_lor bs (Z.of_nat k) acc)) st.
Proof.
  induction n as [|n IH]; intros k acc st;
    cbn [seq map for_each draw]; unfold bind, ret in *.
  - reflexivity.
  - destruct (generate_raw_bit fuel st) as [[b st1]| |]; try reflexivity.
    rewrite IH.
    destruct (draw fuel n st1) as [[bs st2]| |]; try reflexivity.
    cbn [pack_lor]. replace (Z.of_nat (S k)) with (Z.of_nat k + 1) by lia.
    reflexivity.
Qed.

Lemma get_random_bits_draw (fuel : nat) (n : Z) (st : RNG) :
  get_random_bits fuel n st = draw fuel (Z.to_nat n) st.
Proof.
  unfold get_random_bits. rewrite bits_loop_draw, py_range_unit.
  rewrite length_map, length_seq. unfold bind.
  destruct (draw fuel (Z.to_nat n) st) as [[bs st1]| |]; reflexivity.
Qed.

Lemma apply_whitening_draw (fuel : nat) (num_bits : Z) (st : RNG) :
  apply_whitening fuel num_bits st =
  (bs <- draw fuel (Z.to_nat num_bits) ;; ret (pack_lor bs 0 0)) st.
Proof.
  unfold apply_whitening. rewrite py_range_unit. apply pack_loop_draw.
Qed.

Lemma lor_place_bit (acc b i : Z) :
  0 <= i -> 0 <= acc < 2 ^ i -> is_bit b ->
  Z.lor acc (Z.shiftl b i) = acc + 2 ^ i * b.
Proof.
  intros Hi Hacc [->| ->].
  - rewrite Z.shiftl_0_l, Z.lor_0_r. lia.
  - rewrite Z.shiftl_1_l, Z.mul_1_r.
    assert (Hd : Z.land acc (2 ^ i) = 0).
    { apply Z.bits_inj'. intros n Hn.
      rewrite Z.land_spec, Z.bits_0, Z.pow2_bits_eqb by exact Hi.
      destruct (Z.eqb_spec i n) as [<-|Hne];
        [|apply andb_false_r].
      rewrite andb_true_r.
      destruct (Z.eq_dec acc 0) as [->|Hnz]; [apply Z.bits_0|].
      apply Z.bits_above_log2; [lia|]. apply Z.log2_lt_pow2; lia. }
    rewrite <- Z.lxor_lor by exact Hd.
    symmetry. apply Z.add_nocarry_lxor. exact Hd.
Qed.

Lemma pack_range (bs : list Z) :
  Forall is_bit bs -> 0 <= Spec.pack bs < 2 ^ Z.of_nat (length bs).
Proof.
  induction 1 as [|b bs Hb Hbs IH].
  - simpl. lia.
  - cbn [Spec.pack length]. rewrite Nat2Z.inj_succ, Z.pow_succ_r by lia.
    destruct Hb as [->| ->]; lia.
Qed.

Lemma pack_lor_sum (bs : list Z) :
  Forall is_bit bs ->
  forall i acc,
    0 <= i -> 0 <= acc < 2 ^ i ->
    pack_lor bs i acc = acc + 2 ^ i * Spec.pack bs.
Proof.
  induction 1 as [|b bs Hb Hbs IH]; intros i acc Hi Hacc.
  - simpl. lia.
  - cbn [pack_lor Spec.pack].
    rewrite lor_place_bit by assumption.
    rewrite IH; [rewrite Z.pow_add_r by lia; lia|lia|].
    rewrite Z.pow_add_r by lia. destruct Hb as [->| ->]; lia.
Qed.

Lemma pack_testbit (bs : list Z) :
  Forall is_bit bs ->
  forall i, (i < length bs)%nat ->
    Z.testbit (Spec.pack bs) (Z.of_nat i) = (nth i bs 0 =? 1).
Proof.
  induction 1 as [|b bs Hb Hbs IH]; intros i Hi; [simpl in Hi; lia|].
  cbn [Spec.pack]. destruct i as [|i].
  - simpl Z.of_nat. simpl nth. destruct Hb as [->| ->].
    + rewrite Z.add_0_l. rewrite Z.testbit_even_0. reflexivity.
    + replace (1 + 2 * Spec.pack bs) with (2 * Spec.pack bs + 1) by lia.
      rewrite Z.testbit_odd_0. reflexivity.
  - rewrite Nat2Z.inj_succ. simpl nth. simpl in Hi.
    destruct Hb as [->| ->].
    + rewrite Z.add_0_l, Z.testbit_even_succ by lia. apply IH. lia.
    + replace (1 + 2 * Spec.pack bs) with (2 * Spec.pack bs + 1) by lia.
      rewrite Z.testbit_odd_succ by lia. apply IH. lia.
Qed.

Lemma apply_whitening_inv (fuel : nat) (n : Z) (st st' : RNG) (v : Z) :
  rng_inv st -> apply_whitening fuel n st = Ok (v, st') ->
  exists bs,
    draw fuel (Z.to_nat n) st = Ok (bs, st') /\ v = Spec.pack bs /\
    Forall is_bit bs /\ rng_inv st'.
Proof.
  intros Hinv H. rewrite apply_whitening_draw in H.
  inv_bind H. inv_ret H. rename a into bs.
  destruct (draw_inv _ _ _ _ _ Hinv H0) as [Hinv' Hbs].
  exists bs. split; [exact H0|]. split; [|split; assumption].
  rewrite pack_lor_sum by (try assumption; rewrite ?Z.pow_0_r; lia).
  rewrite Z.pow_0_r. lia.
Qed.

Lemma get_random_bits_inv (fuel : nat) (n : Z) (st st' : RNG) (bs : list Z) :
  rng_inv st -> get_random_bits fuel n st = Ok (bs, st') ->
  rng_inv st' /\ Forall is_bit bs /\ length bs = Z.to_nat n.
Proof.
  intros Hinv H. rewrite get_random_bits_draw in H.
  destruct (draw_inv _ _ _ _ _ Hinv H) as [Hinv' Hbs].
  split; [exact Hinv'|]. split; [exact Hbs|]. eapply draw_length; exact H.
Qed.

Lemma rejection_loop_inv (fuel : nat) (w max_value : Z) (attempts : nat) :
  forall st st' v,
    rng_inv st -> rejection_loop fuel attempts w max_value st = Ok (v, st') ->
    rng_inv st' /\ 0 <= v < max_value.
Proof.
  induction attempts as [|k IH]; intros st st' v Hinv H; [discriminate H|].
  simpl in H. inv_bind H. rename a into num.
  destruct (apply_whitening_inv _ _ _ _ _ Hinv H0) as (bs & _ & -> & Hbs & Hinv1).
  destruct (Z.ltb_spec (Spec.pack bs) max_value) as [Hlt|Hge].
  - inv_ret H. pose proof (pack_range _ Hbs). split; [exact Hinv1|lia].
  - eapply IH; eassumption.
Qed.

Lemma get_random_number_inv (fuel : nat) (max_value : Z) (st st' : RNG) (v : Z) :
  rng_inv st -> get_random_number fuel max_value st = Ok (v, st') ->
  rng_inv st'.
Proof.
  intros Hinv H. unfold get_random_number in H.
  destruct (max_value <=? 1).
  - inv_ret H. exact Hinv.
  - eapply rejection_loop_inv; eassumption.
Qed.

Lemma run_op_inv (fuel : nat) (o : op) (st st' : RNG) (v : value) :
  rng_inv st -> run_op fuel o st = Ok (v, st') -> rng_inv st'.
Proof.
  intros Hinv H. destruct o; simpl in H; inv_bind H; inv_ret H.
  - eapply xorshift_inv; eassumption.
  - eapply fill_buffer_inv; eassumption.
  - eapply generate_raw_bit_inv; eassumption.
  - eapply get_random_bits_inv; eassumption.
  - destruct (apply_whitening_inv _ _ _ _ _ Hinv H0) as (bs & _ & _ & _ & Hinv1).
    exact Hinv1.
  - eapply get_random_number_inv; eassumption.
Qed.

Lemma reachable_inv (st : RNG) : reachable st -> rng_inv st.
Proof.
  induction 1 as [seed|st st' fuel o v _ IH Hcall].
  - apply init_inv.
  - eapply run_op_inv; eassumption.
Qed.

(** No method call on a generator ends in an [IndexError]: a call either
    returns or loops. *)
Lemma run_op_no_exn (fuel : nat) (o : op) (st : RNG) :
  run_op fuel o st <> IndexError.
Proof.
  assert (Hloop : forall A (body : Z -> A -> M A) xs a s,
             (forall x a s, body x a s <> IndexError) ->
             for_each xs body a s <> IndexError).
  { intros A body xs a s Hb.
    apply (for_each_no_exn (fun _ => True)); auto. }
  assert (Hbit : forall A (k : Z -> M A) s,
             (forall b s', k b s' <> IndexError) ->
             bind (generate_raw_bit fuel) k s <> IndexError).
  { intros A k s Hk H. apply bind_IndexError in H.
    destruct H as [H|(b & s1 & _ & H)];
      [exact (generate_raw_bit_no_exn _ _ H)|exact (Hk _ _ H)]. }
  assert (Hpack : forall n s, apply_whitening fuel n s <> IndexError).
  { intros n s. apply Hloop. intros x a s0. apply Hbit. discriminate. }
  assert (Hrej : forall k w m s, rejection_loop fuel k w m s <> IndexError).
  { induction k as [|k IH]; intros w m s H; [discriminate H|].
    simpl in H. apply bind_IndexError in H.
    destruct H as [H|(num & s1 & _ & H)]; [exact (Hpack _ _ H)|].
    destruct (num <? m); [discriminate H|exact (IH _ _ _ H)]. }
  intros H. destruct o; simpl in H; apply bind_IndexError in H;
    destruct H as [H|(a & s1 & _ & H)]; try discriminate H.
  - exact (fill_buffer_no_exn _ _ H).
  - exact (generate_raw_bit_no_exn _ _ H).
  - revert H. apply Hloop. intros x a s0. apply Hbit. discriminate.
  - exact (Hpack _ _ H).
  - unfold get_random_number in H.
    destruct (max_value <=? 1); [discriminate H|exact (Hrej _ _ _ _ H)].
Qed.

(** ** The scrambler *)

(** C2. [_xorshift64_raw] is the Xorshift64* step of the specification:
    from x = state it computes x ^= (x << 12) mod 2^64, x ^= x >> 25,
    x ^= (x << 27) mod 2^64, stores x as the new state and returns
    (x * 2685821657736338717) mod 2^64, leaving the bit buffer alone; and
    on a 64-bit state both the new state and the returned word are again
    64-bit values. *)
Theorem xorshift64_raw_is_xorshift64star (st : RNG) :
  _xorshift64_raw st =
    Ok (Spec.output (Spec.next_state (state st)),
        {| state := Spec.next_state (state st);
           bit_buffer := bit_buffer st;
           buffer_index := buffer_index st |})
  /\ (word64 (state st) ->
      word64 (Spec.next_state (state st)) /\
      word64 (Spec.output (Spec.next_state (state st)))).
Proof.
  assert (E : _xorshift64_raw st =
              Ok (Spec.output (Spec.next_state (state st)),
                  set_state (Spec.next_state (state st)) st)).
  { unfold _xorshift64_raw, Spec.next_state, Spec.output, Spec.two64, MAGIC.
    rewrite !land_mask64. reflexivity. }
  split; [exact E|].
  intros Hw. unfold Spec.next_state, Spec.output, Spec.two64.
  rewrite <- !land_mask64. split; [|apply land_mask64_word].
  repeat first [ apply lxor_word | apply land_mask64_word
               | apply shiftr_word; [lia|] | exact Hw ].
Qed.

Lemma xorshift64_raw_is_xorshift64star_witness :
  _xorshift64_raw (__init__ 1) =
    Ok (14229403333805649181,
        {| state := 549890035713; bit_buffer := []; buffer_index := 0 |})
  /\ word64 549890035713 /\ word64 14229403333805649181.
Proof.
  destruct (xorshift64_raw_is_xorshift64star (__init__ 1)) as [E W].
  split; [exact E|]. apply W. unfold word64. simpl. lia.
Defined.

(** ** The refill loop *)

Lemma fill_buffer_refills_of (fuel : nat) :
  forall st st' u,
    _fill_buffer fuel st = Ok (u, st') ->
    exists n, (n < fuel)%nat /\ refills st n st'.
Proof.
  induction fuel as [|fuel IH]; intros st st' u H; [discriminate H|].
  destruct (Z_lt_dec (buffered st) 32) as [Hlt|Hge].
  - destruct (xorshift_total st) as (w & st1 & Hraw).
    rewrite (fill_buffer_pull _ _ _ _ Hlt Hraw) in H.
    destruct (IH _ _ _ H) as (n & Hn & Hr).
    exists (S n). split; [lia|]. eapply refills_pull; eassumption.
  - rewrite fill_buffer_stop in H by lia. injection H as ? ?; subst.
    exists O. split; [lia|]. apply refills_stop. unfold buffered in Hge. lia.
Qed.

Lemma refills_fill_buffer (st st' : RNG) (n : nat) :
  refills st n st' ->
  forall fuel, (n < fuel)%nat -> _fill_buffer fuel st = Ok (tt, st').
Proof.
  induction 1 as [st Hfull|st st1 st' w n Hlt Hraw _ IH]; intros fuel Hf.
  - destruct fuel as [|fuel]; [lia|]. apply fill_buffer_stop. exact Hfull.
  - destruct fuel as [|fuel]; [lia|].
    rewrite (fill_buffer_pull _ _ _ _ Hlt Hraw). apply IH. lia.
Qed.

(** C3. [_fill_buffer] pulls raw words for as long as the bit buffer holds
    fewer than 32 bits and stops as soon as it holds 32 or more; every
    pulled word w appends to the buffer exactly the bits that the pairs
    (w[i], w[i+1]), i = 0, 2, ..., 62 in increasing order, give under the
    rule (0,1) -> 0, (1,0) -> 1, (0,0) and (1,1) -> nothing. With fuel for
    more than n tests of the loop condition the call returns exactly when
    the loop pulls n words. *)
Theorem fill_buffer_whitens_pairs (fuel : nat) (st st' : RNG) :
  (_fill_buffer fuel st = Ok (tt, st') <->
   exists n, (n < fuel)%nat /\ refills st n st')
  /\ (forall w s,
        whiten_word w s =
        Ok (tt, set_bit_buffer
                  (bit_buffer s ++
                   flat_map (fun i => match Z.testbit w i, Z.testbit w (i + 1) with
                                      | false, true => [0]
                                      | true, false => [1]
                                      | _, _ => []
                                      end)
                            [0; 2; 4; 6; 8; 10; 12; 14; 16; 18; 20; 22; 24; 26;
                             28; 30; 32; 34; 36; 38; 40; 42; 44; 46; 48; 50; 52;
                             54; 56; 58; 60; 62]) s)).
Proof.
  split; [split|].
  - apply fill_buffer_refills_of.
  - intros (n & Hn & Hr). eapply refills_fill_buffer; eassumption.
  - intros w s. rewrite whiten_word_eq. reflexivity.
Qed.

Example fill_buffer_seed_zero :
  exists st', _fill_buffer 3 (__init__ 0) = Ok (tt, st') /\
              refills (__init__ 0) 2 st' /\ buffered st' = 32.
Proof.
  eexists. split; [vm_compute; reflexivity|]. split; [|reflexivity].
  eapply refills_pull; [vm_compute; reflexivity|reflexivity|].
  eapply refills_pull; [vm_compute; reflexivity|reflexivity|].
  apply refills_stop. vm_compute. discriminate.
Qed.

(** ** The state never reaches the fixed point *)

(** C4. The state of a generator is never zero: it is non-zero right after
    construction from any seed, every returned call of raw word
    generation, refill, single-bit and multi-bit generation, packing and
    bounded sampling leaves it non-zero, and so it is non-zero after any
    number of such calls. *)
Theorem state_never_zero :
  (forall seed, state (__init__ seed) <> 0)
  /\ (forall st fuel o v st',
        reachable st -> run_op fuel o st = Ok (v, st') -> state st' <> 0)
  /\ (forall st, reachable st -> state st <> 0).
Proof.
  assert (H : forall st, reachable st -> state st <> 0).
  { intros st Hr. destruct (reachable_inv _ Hr) as (_ & Hnz & _). exact Hnz. }
  split; [|split].
  - intros seed. apply H. apply reach_init.
  - intros st fuel o v st' Hr Hcall. apply H.
    eapply reach_call; eassumption.
  - exact H.
Qed.

Lemma state_never_zero_witness :
  exists v st,
    run_ops [(5%nat, OpBounded 256); (5%nat, OpRawWord)] (__init__ 0)
      = Ok (v, st)
    /\ state st <> 0.
Proof.
  eexists. eexists. split; [vm_compute; reflexivity|].
  apply (proj2 (proj2 state_never_zero)).
  eapply (reach_call _ _ 5%nat OpRawWord);
    [eapply (reach_call _ _ 5%nat (OpBounded 256));
       [apply (reach_init 0)|vm_compute; reflexivity]
    |vm_compute; reflexivity].
Defined.

(** ** Packing *)

(** C5. On a generator [st], [apply_whitening(num_bits)] returns v exactly
    when drawing [num_bits] bits returns a list [bits] that packs to v,
    with the same final generator; the first bit drawn is bit 0 of v, the
    second bit 1, and so on, and 0 <= v < 2^num_bits. If the three bits
    drawn are 1, 0, 1 the result is 5, and [num_bits = 0] returns 0 and
    leaves the generator as it was. *)
Theorem apply_whitening_packs_lsb_first (fuel : nat) (st : RNG) :
  reachable st ->
  (forall num_bits v st',
     0 <= num_bits ->
     (apply_whitening fuel num_bits st = Ok (v, st') <->
      exists bits,
        get_random_bits fuel num_bits st = Ok (bits, st') /\
        v = Spec.pack bits))
  /\ (forall num_bits bits st',
        0 <= num_bits ->
        get_random_bits fuel num_bits st = Ok (bits, st') ->
        Z.of_nat (length bits) = num_bits /\
        0 <= Spec.pack bits < 2 ^ num_bits /\
        forall i, (i < length bits)%nat ->
                  Z.testbit (Spec.pack bits) (Z.of_nat i) = (nth i bits 0 =? 1))
  /\ (forall st',
        get_random_bits fuel 3 st = Ok ([1; 0; 1], st') ->
        apply_whitening fuel 3 st = Ok (5, st'))
  /\ apply_whitening fuel 0 st = Ok (0, st).
Proof.
  intros Hr. pose proof (reachable_inv _ Hr) as Hinv.
  assert (Hpack : forall n bits st',
             get_random_bits fuel n st = Ok (bits, st') ->
             apply_whitening fuel n st = Ok (Spec.pack bits, st')).
  { intros n bits st' H. rewrite get_random_bits_draw in H.
    rewrite apply_whitening_draw. unfold bind. rewrite H. unfold ret.
    destruct (draw_inv _ _ _ _ _ Hinv H) as [_ Hbs].
    rewrite pack_lor_sum by (try assumption; rewrite ?Z.pow_0_r; lia).
    rewrite Z.pow_0_r. do 2 f_equal. lia. }
  split; [|split; [|split]].
  - intros n v st' Hn. split.
    + intros H.
      destruct (apply_whitening_inv _ _ _ _ _ Hinv H) as (bs & Hd & -> & _).
      exists bs. rewrite get_random_bits_draw. split; [exact Hd|reflexivity].
    + intros (bits & Hb & ->). apply Hpack. exact Hb.
  - intros n bits st' Hn H.
    destruct (get_random_bits_inv _ _ _ _ _ Hinv H) as (_ & Hbs & Hlen).
    assert (Hl : Z.of_nat (length bits) = n) by (rewrite Hlen; lia).
    split; [exact Hl|]. split.
    + rewrite <- Hl. apply pack_range. exact Hbs.
    + apply pack_testbit. exact Hbs.
  - intros st' H. apply (Hpack _ _ _ H).
  - reflexivity.
Qed.

Lemma apply_whitening_packs_lsb_first_witness :
  exists st',
    get_random_bits 5 3 (__init__ 13) = Ok ([1; 0; 1], st') /\
    apply_whitening 5 3 (__init__ 13) = Ok (5, st') /\
    apply_whitening 5 0 (__init__ 13) = Ok (0, __init__ 13).
Proof.
  eexists. split; [vm_compute; reflexivity|].
  destruct (apply_whitening_packs_lsb_first 5 (__init__ 13) (reach_init 13))
    as (_ & _ & H101 & H0).
  split; [apply H101; vm_compute; reflexivity|exact H0].
Defined.

(** ** Bounded sampling *)

Lemma bit_length_pos (n : Z) :
  0 < n -> bit_length n = Z.log2 n + 1 /\ 2 ^ Z.log2 n <= n < 2 ^ (Z.log2 n + 1).
Proof.
  intros Hn. unfold bit_length.
  destruct (Z.eqb_spec n 0) as [E|_]; [lia|].
  rewrite Z.abs_eq by lia. split; [reflexivity|].
  apply Z.log2_spec. exact Hn.
Qed.

Lemma rejection_loop_attempts (fuel : nat) (w max_value : Z) :
  0 <= w ->
  forall (k : nat) st st' v,
    rng_inv st -> rejection_loop fuel k w max_value st = Ok (v, st') ->
    exists rejected last,
      attempts fuel w st (rejected ++ [last]) st' /\
      Forall (fun a => Z.of_nat (length a) = w /\
                       max_value <= Spec.pack a < 2 ^ w) rejected /\
      Z.of_nat (length last) = w /\ Spec.pack last = v.
Proof.
  intros Hw. induction k as [|k IH]; intros st st' v Hinv H; [discriminate H|].
  simpl in H. inv_bind H. rename a into num.
  destruct (apply_whitening_inv _ _ _ _ _ Hinv H0) as (bs & Hd & -> & Hbs & Hinv1).
  assert (Hlen : Z.of_nat (length bs) = w)
    by (rewrite (draw_length _ _ _ _ _ Hd); lia).
  rewrite <- get_random_bits_draw in Hd.
  destruct (Z.ltb_spec (Spec.pack bs) max_value) as [Hlt|Hge].
  - inv_ret H. exists [], bs. simpl. repeat split; try assumption.
    + eapply attempts_cons; [exact Hd|apply attempts_nil].
    + constructor.
  - destruct (IH _ _ _ Hinv1 H) as (rej & last & Ha & Hrej & Hl & Hv).
    exists (bs :: rej), last. simpl. repeat split; try assumption.
    + eapply attempts_cons; eassumption.
    + constructor; [|exact Hrej].
      pose proof (pack_range _ Hbs) as Hp. rewrite Hlen in Hp. lia.
Qed.

(** C1. For every max > 1, a value v returned by
    [get_random_number(max)] on any generator satisfies 0 <= v < max. *)
Theorem get_random_number_in_range
  (fuel : nat) (max_value : Z) (st st' : RNG) (v : Z) :
  reachable st -> 1 < max_value ->
  get_random_number fuel max_value st = Ok (v, st') ->
  0 <= v < max_value.
Proof.
  intros Hr Hmax H. unfold get_random_number in H.
  destruct (Z.leb_spec max_value 1) as [Hle|_]; [lia|].
  eapply rejection_loop_inv; [apply reachable_inv; exact Hr|exact H].
Qed.

Lemma get_random_number_in_range_witness :
  exists v st',
    get_random_number 5 256 (__init__ default_seed) = Ok (v, st') /\
    v = 192 /\ 0 <= v < 256.
Proof.
  eexists. eexists. split; [vm_compute; reflexivity|]. split; [reflexivity|].
  eapply (get_random_number_in_range 5 256 (__init__ default_seed));
    [apply reach_init|lia|vm_compute; reflexivity].
Defined.

(** C6. For every max > 1 the rejection loop of [get_random_number(max)]
    works with width = bit_length(max) = floor(log2 max) + 1, the number
    of bits of max itself, so 2^(width-1) <= max < 2^width; every attempt
    draws exactly width bits, every rejected attempt packs to a candidate
    in [max, 2^width), and the last attempt packs to the returned value.
    For max = 256 the width is 9 and candidates range over [0, 512), one
    bit more than the 8 bits of 255. *)
Theorem get_random_number_width_of_max :
  (forall (fuel : nat) (max_value : Z) (st st' : RNG) (v : Z),
      reachable st -> 1 < max_value ->
      get_random_number fuel max_value st = Ok (v, st') ->
      let width := Z.log2 max_value + 1 in
      bit_length max_value = width /\
      2 ^ (width - 1) <= max_value < 2 ^ width /\
      exists rejected last,
        attempts fuel width st (rejected ++ [last]) st' /\
        Forall (fun a => Z.of_nat (length a) = width /\
                         max_value <= Spec.pack a < 2 ^ width) rejected /\
        Z.of_nat (length last) = width /\ Spec.pack last = v)
  /\ bit_length 256 = 9 /\ 2 ^ 9 = 512 /\ bit_length (256 - 1) = 8.
Proof.
  split; [|repeat split].
  intros fuel max_value st st' v Hr Hmax H width.
  destruct (bit_length_pos max_value ltac:(lia)) as [Hbl Hlog].
  split; [exact Hbl|]. split.
  - subst width. replace (Z.log2 max_value + 1 - 1) with (Z.log2 max_value) by lia.
    exact Hlog.
  - unfold get_random_number in H.
    destruct (Z.leb_spec max_value 1) as [Hle|_]; [lia|].
    rewrite Hbl in H. subst width.
    eapply rejection_loop_attempts; [|apply reachable_inv; exact Hr|exact H].
    pose proof (Z.log2_nonneg max_value). lia.
Qed.

Lemma get_random_number_width_of_max_witness :
  exists v st' rejected last,
    get_random_number 5 256 (__init__ 0) = Ok (v, st') /\
    attempts 5 9 (__init__ 0) (rejected ++ [last]) st' /\
    Forall (fun a => Z.of_nat (length a) = 9 /\
                     256 <= Spec.pack a < 2 ^ 9) rejected /\
    Z.of_nat (length last) = 9 /\ Spec.pack last = v.
Proof.
  eexists. eexists.
  destruct (proj1 get_random_number_width_of_max 5%nat 256 (__init__ 0)
              _ _ (reach_init 0) ltac:(lia) ltac:(vm_compute; reflexivity))
    as (_ & _ & rejected & last & H).
  exists rejected, last. split; [vm_compute; reflexivity|exact H].
Defined.

Example first_candidate_for_256_is_rejected :
  exists bits st1 v st',
    get_random_bits 5 9 (__init__ 0) = Ok (bits, st1) /\
    Spec.pack bits = 455 /\
    get_random_number 5 256 (__init__ 0) = Ok (v, st') /\
    buffered st' = 32 - 3 * 9.
Proof.
  do 4 eexists.
  split; [vm_compute; reflexivity|].
  split; [reflexivity|].
  split; [vm_compute; reflexivity|reflexivity].
Qed.

(** C7. [get_random_number(0)] and [get_random_number(1)] return 0 at
    once and leave the generator exactly as it was: same state, same bit
    buffer (length and contents). *)
Theorem get_random_number_degenerate (fuel : nat) (st : RNG) :
  get_random_number fuel 0 st = Ok (0, st) /\
  get_random_number fuel 1 st = Ok (0, st).
Proof. split; reflexivity. Qed.

(** C10. For every negative [max_value], [get_random_number(max_value)]
    returns 0 and leaves the generator exactly as it was: the guard
    [max_value <= 1] takes every negative argument. *)
Theorem get_random_number_negative (fuel : nat) (max_value : Z) (st : RNG) :
  max_value < 0 -> get_random_number fuel max_value st = Ok (0, st).
Proof.
  intros Hneg. unfold get_random_number.
  destruct (Z.leb_spec max_value 1) as [_|Hgt]; [reflexivity|lia].
Qed.

Lemma get_random_number_negative_witness :
  -5 < 0 /\
  get_random_number 0 (-5) (__init__ default_seed)
    = Ok (0, __init__ default_seed).
Proof.
  split; [lia|]. apply get_random_number_negative. lia.
Defined.

(** ** Seeds *)

(** C8. Construction with seed 0 stores the state 1 and gives the very
    generator that construction with seed 1 gives, so under every script
    of calls the two return the same values and end in the same generator
    (or both fail to return). *)
Theorem seed_zero_behaves_as_seed_one :
  state (__init__ 0) = 1 /\
  __init__ 0 = __init__ 1 /\
  forall script : list (nat * op),
    run_ops script (__init__ 0) = run_ops script (__init__ 1).
Proof. repeat split. Qed.

(** ** The whitening test vector *)

(** C9, as the specification states it, fails: the 8-bit input 01101001
    read least-significant-first is the pairs (1,0),(0,1),(0,1),(1,0), not
    (1,0),(0,1),(1,1),(0,1), and whitening it does not give the three
    bits 1, 0, 0. *)
Lemma whitening_vector_01101001_refuted :
  ~ (lsb_pairs (Spec.of_binary [0; 1; 1; 0; 1; 0; 0; 1]) 8
       = [(1, 0); (0, 1); (1, 1); (0, 1)]
     /\ whiten_word (Spec.of_binary [0; 1; 1; 0; 1; 0; 0; 1]) (__init__ 1)
       = Ok (tt, set_bit_buffer [1; 0; 0] (__init__ 1))).
Proof. intros [H _]. vm_compute in H. discriminate H. Qed.

(** C9, amended. The four least-significant-first pairs
    (1,0),(0,1),(1,1),(0,1) are the 8-bit input 10111001; whitening it
    appends exactly the three bits 1, 0, 0 to the buffer, the pair (1,1)
    contributing nothing. The input 01101001 reads as the pairs
    (1,0),(0,1),(0,1),(1,0) and appends the four bits 1, 0, 0, 1. *)
Theorem whitening_vector_10111001 (st : RNG) :
  lsb_pairs (Spec.of_binary [1; 0; 1; 1; 1; 0; 0; 1]) 8
    = [(1, 0); (0, 1); (1, 1); (0, 1)]
  /\ whiten_word (Spec.of_binary [1; 0; 1; 1; 1; 0; 0; 1]) st
     = Ok (tt, set_bit_buffer (bit_buffer st ++ [1; 0; 0]) st)
  /\ lsb_pairs (Spec.of_binary [0; 1; 1; 0; 1; 0; 0; 1]) 8
     = [(1, 0); (0, 1); (0, 1); (1, 0)]
  /\ whiten_word (Spec.of_binary [0; 1; 1; 0; 1; 0; 0; 1]) st
     = Ok (tt, set_bit_buffer (bit_buffer st ++ [1; 0; 0; 1]) st).
Proof.
  repeat split; try reflexivity; rewrite whiten_word_eq; reflexivity.
Qed.

(** * Further properties of the generator *)

(** ** Construction *)

(** X1. Construction keeps only the low 64 bits of the seed: the state is
    seed mod 2^64, or 1 when that is zero, the buffer starts empty, and two
    seeds that differ by a multiple of 2^64 (a negative seed and its
    64-bit two's complement, say) construct the same generator. *)
Theorem init_keeps_low_64_bits (seed : Z) :
  state (__init__ seed)
    = (if seed mod 2 ^ 64 =? 0 then 1 else seed mod 2 ^ 64)
  /\ bit_buffer (__init__ seed) = []
  /\ forall k, __init__ (seed + k * 2 ^ 64) = __init__ seed.
Proof.
  unfold __init__. cbn [state bit_buffer]. rewrite land_mask64.
  split; [reflexivity|]. split; [reflexivity|].
  intros k. rewrite land_mask64, Z.mod_add by lia. reflexivity.
Qed.

(** ** The scrambler is a permutation *)

Lemma xor_shl_inj (x y k : Z) :
  0 < k ->
  Z.lxor x (Z.land (Z.shiftl x k) mask64)
    = Z.lxor y (Z.land (Z.shiftl y k) mask64) ->
  x = y.
Proof.
  intros Hk H. apply Z.lxor_eq.
  destruct (Z.eq_dec (Z.lxor x y) 0) as [E|E]; [exact E|exfalso].
  apply (xor_shl_nonzero _ k Hk E).
  transitivity (Z.lxor (Z.lxor x (Z.land (Z.shiftl x k) mask64))
                       (Z.lxor y (Z.land (Z.shiftl y k) mask64)));
    [|rewrite H; apply Z.lxor_nilpotent].
  apply Z.bits_inj'. intros n Hn.
  rewrite !Z.lxor_spec, !Z.land_spec, !Z.shiftl_spec, !Z.lxor_spec by exact Hn.
  destruct (Z.testbit x n), (Z.testbit y n), (Z.testbit x (n - k)),
    (Z.testbit y (n - k)), (Z.testbit mask64 n); reflexivity.
Qed.

Lemma xor_shr_inj (x y k : Z) :
  0 < k -> 0 <= x -> 0 <= y ->
  Z.lxor x (Z.shiftr x k) = Z.lxor y (Z.shiftr y k) ->
  x = y.
Proof.
  intros Hk Hx Hy H. apply Z.lxor_eq.
  destruct (Z.eq_dec (Z.lxor x y) 0) as [E|E]; [exact E|exfalso].
  assert (Hpos : 0 < Z.lxor x y).
  { assert (0 <= Z.lxor x y) by (apply Z.lxor_nonneg; tauto). lia. }
  apply (xor_shr_nonzero _ k Hk Hpos).
  transitivity (Z.lxor (Z.lxor x (Z.shiftr x k)) (Z.lxor y (Z.shiftr y k)));
    [|rewrite H; apply Z.lxor_nilpotent].
  apply Z.bits_inj'. intros n Hn.
  rewrite !Z.lxor_spec, !Z.shiftr_spec, !Z.lxor_spec by exact Hn.
  destruct (Z.testbit x n), (Z.testbit y n), (Z.testbit x (n + k)),
    (Z.testbit y (n + k)); reflexivity.
Qed.

Lemma magic_inverse (x : Z) :
  word64 x -> (Z.land (x * MAGIC) mask64 * MAGIC_INV) mod 2 ^ 64 = x.
Proof.
  intros Hx. rewrite land_mask64.
  rewrite Z.mul_mod_idemp_l by lia.
  rewrite <- Z.mul_assoc, <- Z.mul_mod_idemp_r by lia.
  replace ((MAGIC * MAGIC_INV) mod 2 ^ 64) with 1 by reflexivity.
  rewrite Z.mul_1_r. apply Z.mod_small. exact Hx.
Qed.

Lemma xorshift64_raw_scramble (st : RNG) :
  _xorshift64_raw st =
  Ok (Z.land (scramble (state st) * MAGIC) mask64,
      set_state (scramble (state st)) st).
Proof. reflexivity. Qed.

Lemma scramble_word (x : Z) : word64 x -> word64 (scramble x).
Proof.
  intros Hx. unfold scramble.
  repeat first [ apply lxor_word | apply land_mask64_word
               | apply shiftr_word; [lia|] | exact Hx ].
Qed.

Lemma scramble_inj (x y : Z) :
  word64 x -> word64 y -> scramble x = scramble y -> x = y.
Proof.
  intros Hx Hy H. unfold scramble in H.
  apply xor_shl_inj in H; [|lia].
  apply xor_shr_inj in H; [|lia| |].
  - apply xor_shl_inj in H; [exact H|lia].
  - apply lxor_word; [exact Hx|apply land_mask64_word].
  - apply lxor_word; [exact Hy|apply land_mask64_word].
Qed.

Lemma raw_word_inverse (st st' : RNG) (w : Z) :
  word64 (state st) ->
  _xorshift64_raw st = Ok (w, st') ->
  state st' = (w * MAGIC_INV) mod 2 ^ 64.
Proof.
  intros Hw H. rewrite xorshift64_raw_scramble in H.
  injection H as <- <-. cbn [state set_state].
  symmetry. apply magic_inverse. apply scramble_word. exact Hw.
Qed.

(** X2. The returned raw word gives the new state away: the state that
    [_xorshift64_raw] stores is (word * 6415128727920758069) mod 2^64,
    the multiplier being the inverse of the magic constant modulo 2^64. *)
Theorem raw_word_reveals_state (st st' : RNG) (w : Z) :
  word64 (state st) ->
  _xorshift64_raw st = Ok (w, st') ->
  state st' = (w * MAGIC_INV) mod 2 ^ 64.
Proof.
  exact (raw_word_inverse st st' w).
Qed.

Lemma raw_word_reveals_state_witness :
  exists w st',
    _xorshift64_raw (__init__ 42) = Ok (w, st') /\
    state st' = (w * MAGIC_INV) mod 2 ^ 64.
Proof.
  eexists. eexists. split; [reflexivity|].
  apply (raw_word_reveals_state (__init__ 42)); [|reflexivity].
  unfold word64. cbn. lia.
Defined.

(** X3. The scrambler never merges two streams: two generators whose
    64-bit states differ are left, by one call of [_xorshift64_raw], with
    different states, and the two calls return different words. *)
Theorem xorshift64_raw_injective (st1 st2 st1' st2' : RNG) (w1 w2 : Z) :
  word64 (state st1) -> word64 (state st2) ->
  state st1 <> state st2 ->
  _xorshift64_raw st1 = Ok (w1, st1') ->
  _xorshift64_raw st2 = Ok (w2, st2') ->
  state st1' <> state st2' /\ w1 <> w2.
Proof.
  intros H1 H2 Hne E1 E2.
  assert (Hs : state st1' <> state st2').
  { rewrite xorshift64_raw_scramble in E1, E2.
    injection E1 as _ <-. injection E2 as _ <-. cbn [state set_state].
    intros H. apply Hne. apply scramble_inj; assumption. }
  split; [exact Hs|].
  intros ->. apply Hs.
  rewrite (raw_word_inverse _ _ _ H1 E1).
  rewrite (raw_word_inverse _ _ _ H2 E2). reflexivity.
Qed.

Lemma xorshift64_raw_injective_witness :
  exists w1 w2 st1' st2',
    _xorshift64_raw (__init__ 1) = Ok (w1, st1') /\
    _xorshift64_raw (__init__ 2) = Ok (w2, st2') /\
    state st1' <> state st2' /\ w1 <> w2.
Proof.
  do 4 eexists. split; [reflexivity|]. split; [reflexivity|].
  apply (xorshift64_raw_injective (__init__ 1) (__init__ 2));
    try reflexivity; try (unfold word64; cbn; lia).
Defined.

(** ** Reading bits *)

Lemma rebuild_mod (number : Z) (n : nat) :
  rebuild number n = number mod 2 ^ Z.of_nat n.
Proof.
  induction n as [|n IH].
  - simpl. rewrite Z.mod_1_r. reflexivity.
  - cbn [rebuild]. rewrite IH, extract_bit_testbit by lia.
    rewrite Z.testbit_spec' by lia.
    rewrite Nat2Z.inj_succ, Z.pow_succ_r by lia.
    rewrite (Z.mul_comm 2).
    assert (2 ^ Z.of_nat n <> 0) by (apply Z.pow_nonzero; lia).
    rewrite Z.rem_mul_r by lia. reflexivity.
Qed.

(** X4. [_extract_bit] reads a binary digit: at every position >= 0 it
    returns 0 or 1, and the digits at positions 0..63 weighted by 2^i add
    up to the number modulo 2^64, so to the number itself when it is a
    64-bit word. *)
Theorem extract_bit_digits (number : Z) :
  (forall bit_pos, 0 <= bit_pos -> is_bit (_extract_bit number bit_pos))
  /\ rebuild number 64 = number mod 2 ^ 64
  /\ (word64 number -> rebuild number 64 = number).
Proof.
  split; [|split].
  - intros i Hi. rewrite extract_bit_testbit by exact Hi.
    unfold is_bit. destruct (Z.testbit number i); simpl; lia.
  - apply (rebuild_mod number 64).
  - intros Hw. rewrite (rebuild_mod number 64). apply Z.mod_small. exact Hw.
Qed.

Lemma extract_bit_digits_witness :
  is_bit (_extract_bit 105 3) /\ rebuild 105 64 = 105.
Proof.
  destruct (extract_bit_digits 105) as (Hb & _ & Hr).
  split; [apply Hb; lia|apply Hr; unfold word64; cbn; lia].
Defined.

(** ** Whitening is symmetric in 0 and 1 *)

Lemma pair_rule_flip (b1 b2 : bool) :
  Spec.pair_rule (negb b1) (negb b2) = map flip_bit (Spec.pair_rule b1 b2).
Proof. destruct b1, b2; reflexivity. Qed.

Lemma testbit_complement64 (w i : Z) :
  0 <= i < 64 -> Z.testbit (Z.lxor w mask64) i = negb (Z.testbit w i).
Proof.
  intros Hi. rewrite Z.lxor_spec, mask64_ones, Z.ones_spec_low by exact Hi.
  destruct (Z.testbit w i); reflexivity.
Qed.

Lemma whiten_flip_on (w : Z) (xs : list Z) :
  Forall (fun i => 0 <= i < 63) xs ->
  flat_map (fun i => Spec.pair_rule (Z.testbit (Z.lxor w mask64) i)
                                    (Z.testbit (Z.lxor w mask64) (i + 1))) xs
  = map flip_bit
        (flat_map (fun i => Spec.pair_rule (Z.testbit w i)
                                           (Z.testbit w (i + 1))) xs).
Proof.
  induction 1 as [|i xs Hi _ IH]; [reflexivity|].
  cbn [flat_map]. rewrite map_app, IH, !testbit_complement64 by lia.
  rewrite pair_rule_flip. reflexivity.
Qed.

Lemma pair_positions_range : Forall (fun i => 0 <= i < 63) Spec.pair_positions.
Proof.
  unfold Spec.pair_positions. apply Forall_forall. intros i Hi.
  apply in_map_iff in Hi. destruct Hi as (k & <- & Hk).
  apply in_seq in Hk. lia.
Qed.

Lemma whiten_length (w : Z) : (length (Spec.whiten w) <= 32)%nat.
Proof.
  unfold Spec.whiten.
  assert (H : forall xs,
             (length (flat_map (fun i => Spec.pair_rule (Z.testbit w i)
                                                        (Z.testbit w (i + 1))) xs)
              <= length xs)%nat).
  { induction xs as [|i xs IH]; [apply le_n|].
    cbn [flat_map]. rewrite length_app. cbn [length].
    destruct (Z.testbit w i), (Z.testbit w (i + 1)); simpl; lia. }
  apply (H Spec.pair_positions).
Qed.

(** X5. Whitening one raw word appends at most 32 bits to the buffer, each
    0 or 1, and touches nothing else; it is symmetric in 0 and 1: for the
    64-bit complement of the word it appends the complemented bits. *)
Theorem whiten_word_symmetric (w : Z) (st : RNG) :
  exists bits,
    whiten_word w st = Ok (tt, set_bit_buffer (bit_buffer st ++ bits) st) /\
    whiten_word (Z.lxor w mask64) st
      = Ok (tt, set_bit_buffer (bit_buffer st ++ map flip_bit bits) st) /\
    (length bits <= 32)%nat /\ Forall is_bit bits.
Proof.
  exists (Spec.whiten w). rewrite !whiten_word_eq.
  split; [reflexivity|]. split; [|split].
  - unfold Spec.whiten at 1. rewrite whiten_flip_on by apply pair_positions_range.
    reflexivity.
  - apply whiten_length.
  - apply whiten_bits.
Qed.

(** ** The buffer *)

Lemma fill_buffer_post (fuel : nat) :
  forall st st' u,
    _fill_buffer fuel st = Ok (u, st') ->
    32 <= buffered st' /\
    (exists added, bit_buffer st' = bit_buffer st ++ added /\ Forall is_bit added) /\
    buffer_index st' = buffer_index st /\
    (32 <= buffered st -> st' = st) /\
    (buffered st < 32 -> buffered st' <= 63).
Proof.
  induction fuel as [|fuel IH]; intros st st' u H; [discriminate H|].
  destruct (Z_lt_dec (buffered st) 32) as [Hlt|Hge].
  - rewrite (fill_buffer_pull _ _ _ _ Hlt (xorshift64_raw_scramble st)) in H.
    set (w := Z.land (scramble (state st) * MAGIC) mask64) in *.
    set (st2 := set_bit_buffer _ _) in H.
    assert (Hb2 : bit_buffer st2 = bit_buffer st ++ Spec.whiten w) by reflexivity.
    assert (Hl2 : buffered st2 <= 63).
    { unfold buffered in *. rewrite Hb2, length_app.
      pose proof (whiten_length w). lia. }
    destruct (IH _ _ _ H) as (Hfull & (added & Hadd & Hbits) & Hidx & Hsame & Hle).
    split; [exact Hfull|]. split; [|split; [|split]].
    + exists (Spec.whiten w ++ added). split.
      * rewrite Hadd, Hb2, app_assoc. reflexivity.
      * apply Forall_app. split; [apply whiten_bits|exact Hbits].
    + rewrite Hidx. reflexivity.
    + lia.
    + intros _. destruct (Z_lt_dec (buffered st2) 32) as [Hlt2|Hge2].
      * apply Hle. exact Hlt2.
      * rewrite Hsame by lia. exact Hl2.
  - rewrite fill_buffer_stop in H by lia. injection H as ? ?; subst.
    split; [lia|]. split; [|split; [|split]].
    + exists []. rewrite app_nil_r. split; [reflexivity|constructor].
    + reflexivity.
    + reflexivity.
    + lia.
Qed.

(** X6. What a returned [_fill_buffer] has done: the buffer holds at least
    32 bits; the old buffer is still there, in order, with only 0/1 bits
    added behind it; a buffer that already held 32 bits or more is left
    alone together with the state; and a buffer that held fewer than 32
    bits ends with at most 63. *)
Theorem fill_buffer_appends (fuel : nat) (st st' : RNG) :
  _fill_buffer fuel st = Ok (tt, st') ->
  32 <= buffered st' /\
  (exists added, bit_buffer st' = bit_buffer st ++ added /\ Forall is_bit added) /\
  (32 <= buffered st -> st' = st) /\
  (buffered st < 32 -> buffered st' <= 63).
Proof.
  intros H. destruct (fill_buffer_post _ _ _ _ H) as (H1 & H2 & _ & H3 & H4).
  repeat split; assumption.
Qed.

Lemma fill_buffer_appends_witness :
  exists st',
    _fill_buffer 3 (__init__ 42) = Ok (tt, st') /\
    32 <= buffered st' <= 63.
Proof.
  eexists. split; [vm_compute; reflexivity|].
  destruct (fill_buffer_appends 3 (__init__ 42) _ ltac:(vm_compute; reflexivity))
    as (Hlo & _ & _ & Hhi).
  split; [exact Hlo|apply Hhi; reflexivity].
Defined.

Lemma pop0_post (st st' : RNG) (b : Z) :
  pop0 st = Ok (b, st') ->
  bit_buffer st = b :: bit_buffer st' /\ state st' = state st /\
  buffered st' = buffered st - 1.
Proof.
  unfold pop0, buffered. destruct (bit_buffer st) as [|b0 rest] eqn:E;
    [discriminate|].
  intros H. injection H as <- <-. cbn [bit_buffer state set_bit_buffer length].
  repeat split. lia.
Qed.

Lemma generate_raw_bit_post (fuel : nat) (st st' : RNG) (b : Z) :
  generate_raw_bit fuel st = Ok (b, st') ->
  (buffered st <= 63 -> buffered st' <= 63) /\
  (bit_buffer st = [] -> 31 <= buffered st' <= 62).
Proof.
  intros H. unfold generate_raw_bit in H.
  inv_bind H. inv_bind H. inv_ret H.
  destruct (pop0_post _ _ _ H1) as (_ & _ & Hlen).
  fold (buffered st) in H0.
  destruct (Z.eqb_spec (buffered st) 0) as [E|E].
  - destruct (fill_buffer_post _ _ _ _ H0) as (Hfull & _ & _ & _ & Hle).
    split; intros _; lia.
  - inv_ret H0. split; [lia|].
    intros Hnil. unfold buffered in E. rewrite Hnil in E. simpl in E. lia.
Qed.

(** X7. [generate_raw_bit] is a queue read. On a non-empty buffer it
    returns the oldest bit, removes it, and leaves the rest of the buffer
    and the state alone, without refilling, whatever the fuel. On an empty
    buffer a returned call has refilled first and leaves between 31 and 62
    bits. *)
Theorem generate_raw_bit_fifo (fuel : nat) (st : RNG) :
  (forall b rest,
      bit_buffer st = b :: rest ->
      generate_raw_bit fuel st = Ok (b, set_bit_buffer rest st))
  /\ (forall b st',
        bit_buffer st = [] ->
        generate_raw_bit fuel st = Ok (b, st') ->
        31 <= buffered st' <= 62 /\ is_bit b).
Proof.
  split.
  - intros b rest Hb. unfold generate_raw_bit, bind, pop0, ret.
    destruct (Z.eqb_spec (Z.of_nat (length (bit_buffer st))) 0) as [E|_].
    + rewrite Hb in E. cbn [length] in E. lia.
    + rewrite Hb. reflexivity.
  - intros b st' Hnil H. split.
    + apply (generate_raw_bit_post _ _ _ _ H). exact Hnil.
    + unfold generate_raw_bit in H. inv_bind H. inv_bind H. inv_ret H.
      rewrite Hnil in H0. simpl in H0.
      destruct (fill_buffer_post _ _ _ _ H0) as (_ & (added & Hadd & Hbits) & _).
      rewrite Hnil in Hadd. simpl in Hadd.
      destruct (pop0_post _ _ _ H1) as (Hpop & _).
      rewrite Hadd in Hpop. rewrite Hpop in Hbits. inversion Hbits; assumption.
Qed.

Lemma generate_raw_bit_fifo_witness :
  generate_raw_bit 0 {| state := 7; bit_buffer := [1; 0]; buffer_index := 0 |}
    = Ok (1, {| state := 7; bit_buffer := [0]; buffer_index := 0 |})
  /\ exists b st',
       generate_raw_bit 3 (__init__ 42) = Ok (b, st') /\
       31 <= buffered st' <= 62 /\ is_bit b.
Proof.
  split.
  - apply (proj1 (generate_raw_bit_fifo 0
                    {| state := 7; bit_buffer := [1; 0]; buffer_index := 0 |})).
    reflexivity.
  - eexists. eexists. split; [vm_compute; reflexivity|].
    apply (proj2 (generate_raw_bit_fifo 3 (__init__ 42)));
      [reflexivity|vm_compute; reflexivity].
Defined.

Lemma rejection_loop_keeps (I : RNG -> Prop) (fuel : nat) (w m : Z) :
  (forall n st st' v, I st -> apply_whitening fuel n st = Ok (v, st') -> I st') ->
  forall (k : nat) st st' v,
    I st -> rejection_loop fuel k w m st = Ok (v, st') -> I st'.
Proof.
  intros Hpack. induction k as [|k IH]; intros st st' v HI H; [discriminate H|].
  simpl in H. inv_bind H.
  pose proof (Hpack _ _ _ _ HI H0) as HI1.
  destruct (a <? m); [inv_ret H; exact HI1|eapply IH; eassumption].
Qed.

Lemma run_op_buffer_bound (fuel : nat) (o : op) (st st' : RNG) (v : value) :
  buffered st <= 63 -> run_op fuel o st = Ok (v, st') -> buffered st' <= 63.
Proof.
  intros Hb H.
  assert (Hbit : forall s s' b,
             buffered s <= 63 -> generate_raw_bit fuel s = Ok (b, s') ->
             buffered s' <= 63).
  { intros s s' b Hs Hg. apply (generate_raw_bit_post _ _ _ _ Hg). exact Hs. }
  assert (Hpack : forall n s s' x,
             buffered s <= 63 -> apply_whitening fuel n s = Ok (x, s') ->
             buffered s' <= 63).
  { intros n s s' x Hs Hp. unfold apply_whitening in Hp.
    eapply (for_each_keeps (fun s => buffered s <= 63)); [|exact Hs|exact Hp].
    intros i acc s0 acc' s0' Hs0 Hbody. inv_bind Hbody. inv_ret Hbody.
    eapply Hbit; eassumption. }
  destruct o; simpl in H; inv_bind H; inv_ret H.
  - rewrite xorshift64_raw_scramble in H0. injection H0 as _ <-. exact Hb.
  - destruct (fill_buffer_post _ _ _ _ H0) as (_ & _ & _ & Hsame & Hle).
    destruct (Z_lt_dec (buffered st) 32) as [Hlt|Hge];
      [apply Hle; exact Hlt|rewrite Hsame by lia; exact Hb].
  - eapply Hbit; eassumption.
  - unfold get_random_bits in H0.
    eapply (for_each_keeps (fun s => buffered s <= 63)); [|exact Hb|exact H0].
    intros i acc s0 acc' s0' Hs0 Hbody. inv_bind Hbody. inv_ret Hbody.
    eapply Hbit; eassumption.
  - eapply Hpack; eassumption.
  - unfold get_random_number in H0. destruct (max_value <=? 1).
    + inv_ret H0. exact Hb.
    + eapply (rejection_loop_keeps (fun s => buffered s <= 63));
        [exact Hpack|exact Hb|exact H0].
Qed.

(** X8. In every generator a program can hold, the bit buffer holds at
    most 63 bits, every buffered bit is 0 or 1, and the state is a
    64-bit value. *)
Theorem reachable_buffer_bounded (st : RNG) :
  reachable st ->
  0 <= buffered st <= 63 /\ Forall is_bit (bit_buffer st) /\ word64 (state st).
Proof.
  intros Hr.
  destruct (reachable_inv _ Hr) as (Hw & _ & Hbits).
  split; [|split; assumption].
  split; [unfold buffered; lia|].
  induction Hr as [seed|st st' fuel o v Hr IH Hcall].
  - unfold buffered. simpl. lia.
  - eapply run_op_buffer_bound; [|exact Hcall].
    apply IH; apply (reachable_inv _ Hr).
Qed.

Lemma reachable_buffer_bounded_witness :
  exists v st,
    run_ops [(5%nat, OpBits 40); (5%nat, OpBounded 1000)] (__init__ 42)
      = Ok (v, st)
    /\ 0 <= buffered st <= 63 /\ Forall is_bit (bit_buffer st)
    /\ word64 (state st).
Proof.
  eexists. eexists. split; [vm_compute; reflexivity|].
  apply reachable_buffer_bounded.
  eapply (reach_call _ _ 5%nat (OpBounded 1000));
    [eapply (reach_call _ _ 5%nat (OpBits 40));
       [apply (reach_init 42)|vm_compute; reflexivity]
    |vm_compute; reflexivity].
Defined.

(** X9. No call of a method ends in the [IndexError] of [pop(0)] on an
    empty list, on any generator object whatever its fields hold: the
    buffer is refilled to at least 32 bits before it is popped empty. *)
Theorem calls_never_raise_IndexError (fuel : nat) (o : op) (st : RNG) :
  run_op fuel o st <> IndexError.
Proof. apply run_op_no_exn. Qed.

(** ** Bit lists and packed integers *)

(** X10. A returned [get_random_bits(n)] hands back exactly n values
    (none for a negative n), and on a generator a program can hold each
    of them is 0 or 1. *)
Theorem get_random_bits_count (fuel : nat) (n : Z) (st st' : RNG) (bits : list Z) :
  get_random_bits fuel n st = Ok (bits, st') ->
  length bits = Z.to_nat n /\ (reachable st -> Forall is_bit bits).
Proof.
  intros H. split.
  - rewrite get_random_bits_draw in H. eapply draw_length; exact H.
  - intros Hr. eapply get_random_bits_inv; [apply reachable_inv; exact Hr|exact H].
Qed.

Lemma get_random_bits_count_witness :
  exists bits st',
    get_random_bits 5 40 (__init__ 42) = Ok (bits, st') /\
    length bits = 40%nat /\ Forall is_bit bits.
Proof.
  eexists. eexists. split; [vm_compute; reflexivity|].
  destruct (get_random_bits_count 5 40 (__init__ 42) _ _
              ltac:(vm_compute; reflexivity)) as [Hl Hb].
  split; [exact Hl|apply Hb; apply reach_init].
Defined.

Lemma nonpositive_counts_nothing (fuel : nat) (n : Z) (st : RNG) :
  n <= 0 ->
  get_random_bits fuel n st = Ok ([], st) /\
  apply_whitening fuel n st = Ok (0, st).
Proof.
  intros Hn. unfold get_random_bits, apply_whitening.
  rewrite py_range_unit. replace (Z.to_nat n) with O by lia.
  split; reflexivity.
Qed.

(** X11. A count that is zero or negative asks for nothing:
    [get_random_bits(n)] returns the empty list and
    [apply_whitening(n)] returns 0, both at once and with the generator
    untouched. *)
Theorem nonpositive_counts_draw_nothing (fuel : nat) (n : Z) (st : RNG) :
  n <= 0 ->
  get_random_bits fuel n st = Ok ([], st) /\
  apply_whitening fuel n st = Ok (0, st).
Proof.
  exact (nonpositive_counts_nothing fuel n st).
Qed.

Lemma nonpositive_counts_draw_nothing_witness :
  get_random_bits 0 (-3) (__init__ 42) = Ok ([], __init__ 42) /\
  apply_whitening 0 (-3) (__init__ 42) = Ok (0, __init__ 42).
Proof. apply nonpositive_counts_draw_nothing. lia. Defined.

Lemma draw_from_buffer (fuel : nat) (k : nat) :
  forall st,
    (k <= length (bit_buffer st))%nat ->
    draw fuel k st =
    Ok (firstn k (bit_buffer st), set_bit_buffer (skipn k (bit_buffer st)) st).
Proof.
  induction k as [|k IH]; intros st Hk.
  - simpl. unfold ret. rewrite set_bit_buffer_same. reflexivity.
  - destruct (bit_buffer st) as [|b rest] eqn:E; [simpl in Hk; lia|].
    cbn [draw]. unfold bind.
    assert (Hg : generate_raw_bit fuel st = Ok (b, set_bit_buffer rest st)).
    { unfold generate_raw_bit, bind, pop0, ret.
      destruct (Z.eqb_spec (Z.of_nat (length (bit_buffer st))) 0) as [E0|_].
      - rewrite E in E0. cbn [length] in E0. lia.
      - rewrite E. reflexivity. }
    rewrite Hg, IH by (simpl in *; lia). reflexivity.
Qed.

Lemma Forall_firstn {A} (P : A -> Prop) (n : nat) :
  forall l, Forall P l -> Forall P (firstn n l).
Proof.
  induction n as [|n IH]; intros l Hl; [constructor|].
  destruct Hl as [|x l Hx Hl]; [constructor|].
  simpl. constructor; [exact Hx|apply IH; exact Hl].
Qed.

(** X12. A request that the buffer can serve is served from the buffer
    alone: asking for n bits with 0 <= n <= len(bit_buffer) returns the
    first n buffered bits in order, leaves the others in the buffer, and
    neither refills nor changes the state, whatever the fuel; and
    [apply_whitening(n)] returns those bits packed, first bit lowest. *)
Theorem served_from_buffer (fuel : nat) (n : Z) (st : RNG) :
  0 <= n <= buffered st ->
  get_random_bits fuel n st
    = Ok (firstn (Z.to_nat n) (bit_buffer st),
          set_bit_buffer (skipn (Z.to_nat n) (bit_buffer st)) st)
  /\ (Forall is_bit (bit_buffer st) ->
      apply_whitening fuel n st
        = Ok (Spec.pack (firstn (Z.to_nat n) (bit_buffer st)),
              set_bit_buffer (skipn (Z.to_nat n) (bit_buffer st)) st)).
Proof.
  intros Hn. unfold buffered in Hn.
  assert (Hd := draw_from_buffer fuel (Z.to_nat n) st ltac:(lia)).
  split.
  - rewrite get_random_bits_draw. exact Hd.
  - intros Hbits. rewrite apply_whitening_draw. unfold bind. rewrite Hd.
    unfold ret. rewrite pack_lor_sum.
    + rewrite Z.pow_0_r. do 2 f_equal. lia.
    + apply Forall_firstn. exact Hbits.
    + lia.
    + rewrite Z.pow_0_r. lia.
Qed.

Lemma served_from_buffer_witness :
  get_random_bits 0 2 {| state := 7; bit_buffer := [1; 0; 1]; buffer_index := 0 |}
    = Ok ([1; 0], {| state := 7; bit_buffer := [1]; buffer_index := 0 |})
  /\ apply_whitening 0 3 {| state := 7; bit_buffer := [1; 0; 1]; buffer_index := 0 |}
     = Ok (5, {| state := 7; bit_buffer := []; buffer_index := 0 |}).
Proof.
  split.
  - apply (proj1 (served_from_buffer 0 2
             {| state := 7; bit_buffer := [1; 0; 1]; buffer_index := 0 |}
             ltac:(unfold buffered; simpl; lia))).
  - apply (proj2 (served_from_buffer 0 3
             {| state := 7; bit_buffer := [1; 0; 1]; buffer_index := 0 |}
             ltac:(unfold buffered; simpl; lia))).
    repeat constructor; unfold is_bit; lia.
Defined.

(** ** Splitting a request *)

Lemma draw_app (fuel : nat) (a b : nat) :
  forall st,
    draw fuel (a + b) st =
    (bs1 <- draw fuel a ;; bs2 <- draw fuel b ;; ret (bs1 ++ bs2)) st.
Proof.
  induction a as [|a IH]; intros st; cbn [Nat.add draw]; unfold bind, ret in *.
  - destruct (draw fuel b st) as [[bs st1]| |]; reflexivity.
  - destruct (generate_raw_bit fuel st) as [[x st1]| |]; try reflexivity.
    rewrite IH.
    destruct (draw fuel a st1) as [[bs1 st2]| |]; try reflexivity.
    destruct (draw fuel b st2) as [[bs2 st3]| |]; reflexivity.
Qed.

Lemma pack_lor_app (bs1 bs2 : list Z) :
  forall i acc,
    pack_lor (bs1 ++ bs2) i acc
    = pack_lor bs2 (i + Z.of_nat (length bs1)) (pack_lor bs1 i acc).
Proof.
  induction bs1 as [|b bs1 IH]; intros i acc.
  - simpl. rewrite Z.add_0_r. reflexivity.
  - cbn [app pack_lor length]. rewrite IH. f_equal. lia.
Qed.

Lemma pack_lor_acc (bs : list Z) :
  forall i acc,
    0 <= i ->
    pack_lor bs i acc = Z.lor acc (Z.shiftl (pack_lor bs 0 0) i).
Proof.
  induction bs as [|b bs IH]; intros i acc Hi.
  - simpl. rewrite Z.shiftl_0_l, Z.lor_0_r. reflexivity.
  - cbn [pack_lor]. rewrite (IH (i + 1)) by lia. rewrite (IH (0 + 1)) by lia.
    rewrite Z.lor_0_l, Z.shiftl_0_r.
    rewrite Z.shiftl_lor, Z.shiftl_shiftl by lia.
    rewrite Z.lor_assoc. do 2 f_equal. lia.
Qed.

(** X13. Bits come out as one stream: for m, n >= 0, one call
    [get_random_bits(m + n)] does what [get_random_bits(m)] followed by
    [get_random_bits(n)] does, and returns the two lists joined. *)
Theorem get_random_bits_split (fuel : nat) (m n : Z) (st : RNG) :
  0 <= m -> 0 <= n ->
  get_random_bits fuel (m + n) st =
  (bs1 <- get_random_bits fuel m ;;
   bs2 <- get_random_bits fuel n ;;
   ret (bs1 ++ bs2)) st.
Proof.
  intros Hm Hn. rewrite get_random_bits_draw.
  rewrite Z2Nat.inj_add by assumption. rewrite draw_app.
  unfold bind. rewrite get_random_bits_draw.
  destruct (draw fuel (Z.to_nat m) st) as [[bs1 st1]| |]; try reflexivity.
  rewrite get_random_bits_draw. reflexivity.
Qed.

Lemma get_random_bits_split_witness :
  exists bs1 st1 bs2 st2,
    get_random_bits 5 20 (__init__ 42) = Ok (bs1, st1) /\
    get_random_bits 5 30 st1 = Ok (bs2, st2) /\
    get_random_bits 5 (20 + 30) (__init__ 42) = Ok (bs1 ++ bs2, st2).
Proof.
  do 4 eexists. split; [vm_compute; reflexivity|].
  split; [vm_compute; reflexivity|].
  rewrite (get_random_bits_split 5 20 30 (__init__ 42)) by lia.
  vm_compute. reflexivity.
Defined.

(** X14. Packing splits the same way: for m, n >= 0,
    [apply_whitening(m + n)] does what [apply_whitening(m)] followed by
    [apply_whitening(n)] does, and its result is the first value with the
    second placed above it, [lo | (hi << m)]. *)
Theorem apply_whitening_split (fuel : nat) (m n : Z) (st : RNG) :
  0 <= m -> 0 <= n ->
  apply_whitening fuel (m + n) st =
  (lo <- apply_whitening fuel m ;;
   hi <- apply_whitening fuel n ;;
   ret (Z.lor lo (Z.shiftl hi m))) st.
Proof.
  intros Hm Hn. rewrite apply_whitening_draw.
  rewrite Z2Nat.inj_add by assumption.
  unfold bind at 1. rewrite draw_app.
  unfold bind. rewrite apply_whitening_draw. unfold bind.
  destruct (draw fuel (Z.to_nat m) st) as [[bs1 st1]| |] eqn:E1; try reflexivity.
  unfold ret at 3. rewrite apply_whitening_draw. unfold bind.
  destruct (draw fuel (Z.to_nat n) st1) as [[bs2 st2]| |]; try reflexivity.
  unfold ret. rewrite pack_lor_app, Z.add_0_l.
  rewrite (draw_length _ _ _ _ _ E1), Z2Nat.id by exact Hm.
  rewrite pack_lor_acc by exact Hm. reflexivity.
Qed.

Lemma apply_whitening_split_witness :
  exists lo st1 hi st2,
    apply_whitening 5 3 (__init__ 13) = Ok (lo, st1) /\
    apply_whitening 5 6 st1 = Ok (hi, st2) /\
    apply_whitening 5 (3 + 6) (__init__ 13) = Ok (Z.lor lo (Z.shiftl hi 3), st2).
Proof.
  do 4 eexists. split; [vm_compute; reflexivity|].
  split; [vm_compute; reflexivity|].
  rewrite (apply_whitening_split 5 3 6 (__init__ 13)) by lia.
  vm_compute. reflexivity.
Defined.

(** ** The draws and tallies of the analysis *)

Lemma tally_bits (bits : list Z) :
  Forall is_bit bits -> tally 0 bits + tally 1 bits = Z.of_nat (length bits).
Proof.
  unfold tally. induction 1 as [|b bits Hb _ IH]; [reflexivity|].
  destruct Hb as [->| ->]; cbn [filter];
    change (0 =? 0) with true; change (0 =? 1) with false;
    change (1 =? 0) with false; change (1 =? 1) with true;
    cbn [length]; lia.
Qed.

Lemma bump_at (buckets : list Z) :
  forall k : nat,
    (k < length buckets)%nat ->
    length (firstn k buckets ++ (nth k buckets 0 + 1) :: skipn (S k) buckets)
      = length buckets /\
    py_sum (firstn k buckets ++ (nth k buckets 0 + 1) :: skipn (S k) buckets)
      = py_sum buckets + 1.
Proof.
  induction buckets as [|x buckets IH]; intros k Hk; [simpl in Hk; lia|].
  destruct k as [|k].
  - simpl. split; [reflexivity|]. unfold py_sum. simpl. lia.
  - cbn [length] in Hk. destruct (IH k ltac:(lia)) as [Hl Hs].
    change (firstn (S k) (x :: buckets)) with (x :: firstn k buckets).
    change (nth (S k) (x :: buckets) 0) with (nth k buckets 0).
    change (skipn (S (S k)) (x :: buckets)) with (skipn (S k) buckets).
    rewrite <- app_comm_cons.
    split; [cbn [length]; rewrite Hl; reflexivity|].
    unfold py_sum in *. cbn [fold_right]. rewrite Hs. lia.
Qed.

Lemma bump_in_range (buckets : list Z) (k : nat) :
  (k < length buckets)%nat ->
  exists buckets',
    bump buckets (Z.of_nat k) = Some buckets' /\
    length buckets' = length buckets /\
    py_sum buckets' = py_sum buckets + 1.
Proof.
  intros Hk. unfold bump, py_index.
  destruct (Z.leb_spec 0 (Z.of_nat k)); [|lia].
  destruct (Z.ltb_spec (Z.of_nat k) (Z.of_nat (length buckets))); [|lia].
  cbn [andb]. rewrite Nat2Z.id. eexists. split; [reflexivity|].
  apply bump_at. exact Hk.
Qed.

Lemma histogram_loop_counts (numbers : list Z) :
  Forall (fun v => 0 <= v < 256) numbers ->
  forall buckets,
    length buckets = 8%nat ->
    exists buckets',
      histogram_loop numbers buckets = Some buckets' /\
      length buckets' = 8%nat /\
      py_sum buckets' = py_sum buckets + Z.of_nat (length numbers).
Proof.
  induction 1 as [|num rest Hnum _ IH]; intros buckets Hlen.
  - exists buckets. simpl. repeat split; [exact Hlen|lia].
  - cbn [histogram_loop].
    assert (Hidx : 0 <= num / 32 < 8).
    { split; [apply Z.div_pos; lia|apply Z.div_lt_upper_bound; lia]. }
    destruct (Z.ltb_spec (num / 32) 8); [|lia].
    destruct (bump_in_range buckets (Z.to_nat (num / 32)) ltac:(lia))
      as (b1 & Hb1 & Hl1 & Hs1).
    rewrite Z2Nat.id in Hb1 by lia. rewrite Hb1.
    destruct (IH b1 ltac:(lia)) as (b2 & Hb2 & Hl2 & Hs2).
    exists b2. split; [exact Hb2|]. split; [exact Hl2|].
    cbn [length]. lia.
Qed.

Lemma sample_numbers_inv (fuel : nat) (xs : list Z) :
  forall acc st acc' st',
    rng_inv st -> Forall (fun v => 0 <= v < 256) acc ->
    for_each xs
      (fun _ numbers => v <- get_random_number fuel 256 ;; ret (numbers ++ [v]))
      acc st = Ok (acc', st') ->
    rng_inv st' /\ Forall (fun v => 0 <= v < 256) acc' /\
    length acc' = (length acc + length xs)%nat.
Proof.
  induction xs as [|x xs IH]; intros acc st acc' st' Hinv Hacc H.
  - simpl in H. inv_ret H.
    split; [exact Hinv|]. split; [exact Hacc|simpl; lia].
  - simpl in H. apply bind_Ok in H. destruct H as (acc1 & s1 & Hbody & H).
    apply bind_Ok in Hbody. destruct Hbody as (v & s2 & Hg & Hr).
    unfold ret in Hr. injection Hr as <- <-.
    assert (Hv : rng_inv s2 /\ 0 <= v < 256).
    { unfold get_random_number in Hg. simpl in Hg.
      eapply rejection_loop_inv; eassumption. }
    destruct Hv as [Hinv1 Hv].
    assert (Hacc1 : Forall (fun v => 0 <= v < 256) (acc ++ [v])).
    { apply Forall_app. split; [exact Hacc|]. constructor; [exact Hv|constructor]. }
    destruct (IH _ _ _ _ Hinv1 Hacc1 H) as (Hi & Hf & Hl).
    split; [exact Hi|]. split; [exact Hf|].
    rewrite Hl, length_app. simpl. lia.
Qed.

(** X15. The numbers [analyze_distribution] draws and buckets: for
    count >= 0 on a generator a program can hold, a returned run of
    [[rng.get_random_number(256) for _ in range(count)]] gives exactly
    count numbers, each in [0, 256); the bucket loop then never indexes
    out of range, its guard [bucket_idx < 8] never drops a number, and the
    eight buckets add up to count. *)
Theorem histogram_counts_every_number
  (fuel : nat) (count : Z) (st st' : RNG) (numbers : list Z) :
  reachable st -> 0 <= count ->
  sample_numbers fuel count st = Ok (numbers, st') ->
  Z.of_nat (length numbers) = count /\
  Forall (fun v => 0 <= v < 256) numbers /\
  exists buckets,
    histogram numbers = Some buckets /\
    length buckets = 8%nat /\
    py_sum buckets = count.
Proof.
  intros Hr Hc H. unfold sample_numbers in H. rewrite py_range_unit in H.
  destruct (sample_numbers_inv _ _ _ _ _ _ (reachable_inv _ Hr)
              (Forall_nil _) H) as (_ & Hrange & Hlen).
  rewrite length_map, length_seq in Hlen. simpl in Hlen.
  assert (Hl : Z.of_nat (length numbers) = count) by lia.
  split; [exact Hl|]. split; [exact Hrange|].
  destruct (histogram_loop_counts numbers Hrange (repeat 0 8) eq_refl)
    as (b & Hb & Hlb & Hsb).
  exists b. split; [exact Hb|]. split; [exact Hlb|].
  rewrite Hsb, Hl. reflexivity.
Qed.

Lemma histogram_counts_every_number_witness :
  exists numbers st' buckets,
    sample_numbers 5 10 (__init__ 42) = Ok (numbers, st') /\
    histogram numbers = Some buckets /\
    py_sum buckets = 10.
Proof.
  eexists. eexists.
  destruct (histogram_counts_every_number 5 10 (__init__ 42) _ _
              (reach_init 42) ltac:(lia) ltac:(vm_compute; reflexivity))
    as (_ & _ & buckets & Hb & _ & Hs).
  exists buckets. split; [vm_compute; reflexivity|]. split; assumption.
Defined.

(** X16. The bits [analyze_distribution] draws and tallies: for
    count >= 1 on a generator a program can hold, a returned run of its
    two draws divides by no zero, gives count * 8 bits and count numbers,
    and the tallies of zeros and of ones add up to the number of bits,
    count * 8. *)
Theorem analysis_tallies_cover_bits
  (fuel : nat) (count : Z) (st st' : RNG) (r : option (list Z * list Z)) :
  reachable st -> 0 < count ->
  analysis_draws fuel count st = Ok (r, st') ->
  exists bits numbers,
    r = Some (bits, numbers) /\
    Z.of_nat (length bits) = count * 8 /\
    tally 0 bits + tally 1 bits = count * 8 /\
    Z.of_nat (length numbers) = count.
Proof.
  intros Hr Hc H. unfold analysis_draws in H.
  apply bind_Ok in H. destruct H as (bits & s1 & H0 & H).
  destruct (get_random_bits_inv _ _ _ _ _ (reachable_inv _ Hr) H0)
    as (Hinv1 & Hbits & Hlen).
  assert (Hl : Z.of_nat (length bits) = count * 8) by lia.
  destruct (Z.eqb_spec (Z.of_nat (length bits)) 0) as [E|_]; [lia|].
  apply bind_Ok in H. destruct H as (numbers & s2 & H1 & H).
  assert (Hn : Z.of_nat (length numbers) = count).
  { unfold sample_numbers in H1. rewrite py_range_unit in H1.
    destruct (sample_numbers_inv _ _ _ _ _ _ Hinv1 (Forall_nil _) H1)
      as (_ & _ & Hn).
    rewrite length_map, length_seq in Hn. simpl in Hn. lia. }
  destruct (Z.eqb_spec (Z.of_nat (length numbers)) 0) as [E|_]; [lia|].
  unfold ret in H. injection H as <- <-.
  exists bits, numbers. split; [reflexivity|]. split; [exact Hl|].
  split; [rewrite tally_bits by exact Hbits; exact Hl|exact Hn].
Qed.

Lemma analysis_tallies_cover_bits_witness :
  exists bits numbers st',
    analysis_draws 5 4 (__init__ 42) = Ok (Some (bits, numbers), st') /\
    tally 0 bits + tally 1 bits = 32 /\
    Z.of_nat (length numbers) = 4.
Proof.
  destruct (analysis_tallies_cover_bits 5 4 (__init__ 42)
              match analysis_draws 5 4 (__init__ 42) with
              | Ok (_, s) => s | _ => __init__ 42 end
              match analysis_draws 5 4 (__init__ 42) with
              | Ok (r, _) => r | _ => None end
              (reach_init 42) ltac:(lia) ltac:(vm_compute; reflexivity))
    as (bits & numbers & Hr & _ & Ht & Hn).
  exists bits, numbers. eexists.
  split; [|split; assumption].
  vm_compute in Hr. rewrite <- Hr. vm_compute. reflexivity.
Defined.

(** X17. [analyze_distribution] with a count that is zero or negative
    draws no bit, leaves the generator untouched, and ends in the
    [ZeroDivisionError] of its first percentage, [100*zeros/len(bits)]. *)
Theorem analysis_of_nothing_divides_by_zero (fuel : nat) (count : Z) (st : RNG) :
  count <= 0 -> analysis_draws fuel count st = Ok (None, st).
Proof.
  intros Hc. unfold analysis_draws, bind.
  destruct (nonpositive_counts_nothing fuel (count * 8) st ltac:(lia)) as [-> _].
  reflexivity.
Qed.

Lemma analysis_of_nothing_divides_by_zero_witness :
  analysis_draws 0 0 (__init__ 42) = Ok (None, __init__ 42).
Proof. apply analysis_of_nothing_divides_by_zero. lia. Defined.
